(** * AgentFlow: the session orchestration engine

    A shallow embedding of the Python sources under [python-agents/]:
    - [utils/redis_client.py]   (module [Redis]),
    - [agents/base_agent.py]    (module [Agent]),
    - [orchestrator/graph.py]   (module [Graph], with what [utils/database.py]
                                 and [utils/php_parser.py] offer it),
    - [agents/documenter.py]    (module [Documenter]),
    - [api/server.py]           (module [Server]).

    Python dictionaries are finite maps ([gmap]) with string keys, values of
    type [Any] are the universal type [pyval], and code that mutates its
    receiver, raises or awaits is written in a small state-and-exception
    monad [M]. *)

From stdpp Require Import gmap strings list fin_maps.
From Stdlib Require Import ZArith Ascii DecimalString.

#[local] Set Warnings "-register-all".
#[local] Open Scope string_scope.
#[local] Open Scope Z_scope.

(** ** Python values and effects *)

Module Py.

(** The values that travel through dictionaries typed [Dict[str, Any]]. *)
Inductive pyval : Type :=
| PNone
| PBool (b : bool)
| PInt (z : Z)
| PStr (s : string)
| PList (l : list pyval)
| PDict (d : gmap string pyval).

(** Truth value testing, as [if x:] and [not x] perform it. *)
Definition truthy (v : pyval) : bool :=
  match v with
  | PNone => false
  | PBool b => b
  | PInt z => negb (z =? 0)
  | PStr s => negb (String.eqb s "")
  | PList l => match l with [] => false | _ => true end
  | PDict d => negb (bool_decide (size d = 0%nat))
  end.

(** [type(x).__name__], which the interpreter puts in its error messages. *)
Definition type_name (v : pyval) : string :=
  match v with
  | PNone => "NoneType"
  | PBool _ => "bool"
  | PInt _ => "int"
  | PStr _ => "str"
  | PList _ => "list"
  | PDict _ => "dict"
  end.

(** [s.endswith(suffix)] *)
Definition endswith (s suffix : string) : bool :=
  let n := String.length s in
  let k := String.length suffix in
  (k <=? n)%nat && String.eqb (String.substring (n - k) k s) suffix.

(** How a call ends: it returns a value, raises an exception (kept as the
    text [str(e)]), or never returns (an awaited collaborator that stays
    suspended for ever). *)
Inductive outcome (A : Type) : Type :=
| Val (a : A)
| Exc (e : string)
| Hang.
Arguments Val {A} a.
Arguments Exc {A} e.
Arguments Hang {A}.

(** Computations over a mutable store [S].  The store survives an exception:
    what a [try] block had already assigned is still assigned when its
    [except] clause runs. *)
Definition M (S A : Type) : Type := S -> S * outcome A.

Definition ret {S A} (a : A) : M S A := fun s => (s, Val a).

Definition bind {S A B} (c : M S A) (k : A -> M S B) : M S B :=
  fun s =>
    match c s with
    | (s', Val a) => k a s'
    | (s', Exc e) => (s', Exc e)
    | (s', Hang) => (s', Hang)
    end.

Definition raise {S A} (e : string) : M S A := fun s => (s, Exc e).
Definition hang {S A} : M S A := fun s => (s, Hang).
Definition get {S} : M S S := fun s => (s, Val s).
Definition modify {S} (f : S -> S) : M S unit := fun s => (f s, Val tt).

(** [try: body / except Exception as e: handler e].  A suspended body stays
    suspended: there is nothing to catch. *)
Definition try_except {S A} (body : M S A) (handler : string -> M S A) : M S A :=
  fun s =>
    match body s with
    | (s', Exc e) => handler e s'
    | r => r
    end.

(** A collaborator's answer enters the computation. *)
Definition await {S A} (o : outcome A) : M S A := fun s => (s, o).

(** [for x in xs: body x] *)
Fixpoint for_each {S A} (xs : list A) (body : A -> M S unit) : M S unit :=
  match xs with
  | [] => ret tt
  | x :: xs' => bind (body x) (fun _ => for_each xs' body)
  end.

End Py.

Export Py.

Declare Scope py_scope.
Delimit Scope py_scope with py.
Notation "'let!' x := c 'in' k" := (bind c (fun x => k))
  (at level 10, x name, c at level 200, k at level 200) : py_scope.
Notation "'do!' c 'in' k" := (bind c (fun _ => k))
  (at level 10, c at level 200, k at level 200) : py_scope.
#[local] Open Scope py_scope.

(** ** Reasoning about computations *)

Module Laws.

(** [c] moves the store along [R]. *)
Definition preserves {S A} (R : relation S) (c : M S A) : Prop :=
  forall s, R s (c s).1.

(** [c] lets no exception out. *)
Definition no_raise {S A} (c : M S A) : Prop :=
  forall s e, (c s).2 <> Exc e.

(** [c] comes back: it does not stay suspended. *)
Definition returns {S A} (c : M S A) : Prop :=
  forall s, (c s).2 <> Hang.

Create HintDb py discriminated.

Section Rules.

Context {S : Type} (R : relation S) `{!PreOrder R}.

Lemma preserves_ret {A} (a : A) : preserves R (ret a).
Proof. intros s. simpl. reflexivity. Qed.

Lemma preserves_raise {A} e : preserves R (raise (A := A) e).
Proof. intros s. simpl. reflexivity. Qed.

Lemma preserves_await {A} (o : outcome A) : preserves R (await o).
Proof. intros s. simpl. reflexivity. Qed.

Lemma preserves_get : preserves R get.
Proof. intros s. simpl. reflexivity. Qed.

Lemma preserves_modify (f : S -> S) :
  (forall s, R s (f s)) -> preserves R (modify f).
Proof. intros H s. apply H. Qed.

Lemma preserves_bind {A B} (c : M S A) (k : A -> M S B) :
  preserves R c -> (forall a, preserves R (k a)) -> preserves R (bind c k).
Proof.
  intros Hc Hk s. unfold bind. specialize (Hc s).
  destruct (c s) as [s' [a|e|]]; simpl in *; auto.
  etrans; [exact Hc | apply Hk].
Qed.

Lemma preserves_try_except {A} (body : M S A) handler :
  preserves R body -> (forall e, preserves R (handler e)) ->
  preserves R (try_except body handler).
Proof.
  intros Hb Hh s. unfold try_except. specialize (Hb s).
  destruct (body s) as [s' [a|e|]]; simpl in *; auto.
  etrans; [exact Hb | apply Hh].
Qed.

Lemma preserves_for_each {A} (xs : list A) (body : A -> M S unit) :
  (forall x, preserves R (body x)) -> preserves R (for_each xs body).
Proof.
  intros Hb. induction xs as [|x xs IH]; simpl.
  - apply preserves_ret.
  - apply preserves_bind; auto.
Qed.

End Rules.

Section Control.

Context {S : Type}.

Lemma no_raise_ret {A} (a : A) : no_raise (ret (S := S) a).
Proof. intros s e. discriminate. Qed.

Lemma no_raise_modify (f : S -> S) : no_raise (modify f).
Proof. intros s e. discriminate. Qed.

Lemma no_raise_bind {A B} (c : M S A) (k : A -> M S B) :
  no_raise c -> (forall a, no_raise (k a)) -> no_raise (bind c k).
Proof.
  intros Hc Hk s e. unfold bind. specialize (Hc s).
  destruct (c s) as [s' [a|e'|]]; simpl in *; try discriminate.
  - apply Hk.
  - by destruct (Hc e').
Qed.

(** A [try] whose [except] clause raises nothing raises nothing. *)
Lemma no_raise_try_except {A} (body : M S A) handler :
  (forall e, no_raise (handler e)) -> no_raise (try_except body handler).
Proof.
  intros Hh s e. unfold try_except.
  destruct (body s) as [s' [a|e'|]]; simpl; try discriminate. apply Hh.
Qed.

Lemma returns_ret {A} (a : A) : returns (ret (S := S) a).
Proof. intros s. discriminate. Qed.

Lemma returns_raise {A} e : returns (raise (S := S) (A := A) e).
Proof. intros s. discriminate. Qed.

Lemma returns_get : returns (get (S := S)).
Proof. intros s. discriminate. Qed.

Lemma returns_modify (f : S -> S) : returns (modify f).
Proof. intros s. discriminate. Qed.

Lemma returns_await {A} (o : outcome A) : o <> Hang -> returns (await (S := S) o).
Proof. intros H s. exact H. Qed.

Lemma returns_bind {A B} (c : M S A) (k : A -> M S B) :
  returns c -> (forall a, returns (k a)) -> returns (bind c k).
Proof.
  intros Hc Hk s. unfold bind. specialize (Hc s).
  destruct (c s) as [s' [a|e'|]]; simpl in *; try done. apply Hk.
Qed.

Lemma returns_try_except {A} (body : M S A) handler :
  returns body -> (forall e, returns (handler e)) ->
  returns (try_except body handler).
Proof.
  intros Hb Hh s. unfold try_except. specialize (Hb s).
  destruct (body s) as [s' [a|e'|]]; simpl in *; try done. apply Hh.
Qed.

Lemma returns_for_each {A} (xs : list A) (body : A -> M S unit) :
  (forall x, returns (body x)) -> returns (for_each xs body).
Proof.
  intros Hb. induction xs as [|x xs IH]; simpl.
  - apply returns_ret.
  - apply returns_bind; auto.
Qed.

(** A computation of type [unit] that raises nothing and comes back has
    returned. *)
Lemma returned (c : M S unit) s :
  no_raise c -> returns c -> c s = ((c s).1, Val tt).
Proof.
  intros Hn Hr. specialize (Hn s). specialize (Hr s).
  destruct (c s) as [s' [[]|e|]]; simpl in *; try done. by destruct (Hn e).
Qed.

End Control.

#[export] Hint Resolve preserves_ret preserves_raise preserves_await preserves_get
  preserves_bind preserves_try_except preserves_for_each preserves_modify : py.
#[export] Hint Resolve no_raise_ret no_raise_modify no_raise_bind no_raise_try_except : py.
#[export] Hint Resolve returns_ret returns_raise returns_get returns_modify
  returns_bind returns_try_except returns_for_each : py.

End Laws.

Export Laws.

(** ** The shared-cache client ([utils/redis_client.py]) *)

Module Redis.

Section Client.

(** [json.dumps]: [None] when the value is not JSON serialisable
    ([TypeError]). *)
Variable json_dumps : pyval -> option string.

(** [json.loads]: the decoded value, a [JSONDecodeError], or some other
    exception. *)
Inductive loaded : Type :=
| Decoded (v : pyval)
| JSONDecodeError
| OtherError.
Variable json_loads : string -> loaded.

(** [str(value)] *)
Variable py_str : pyval -> string.

(** [self._storage]: every value the client stores is a string. *)
Abbreviation storage := (gmap string string).

Definition is_dict_or_list (v : pyval) : bool :=
  match v with
  | PDict _ | PList _ => true
  | _ => false
  end.

(** [RedisClient.set]; the [expire] argument is only logged. *)
Definition set (key : string) (value : pyval) (st : storage) : storage * bool :=
  if is_dict_or_list value then
    match json_dumps value with
    | Some s => (<[key := s]> st, true)
    | None => (st, false)
    end
  else (<[key := py_str value]> st, true).

(** [RedisClient.get] *)
Definition get (key : string) (st : storage) : option pyval :=
  match st !! key with
  | None => None
  | Some value =>
      match json_loads value with
      | Decoded v => Some v
      | JSONDecodeError => Some (PStr value)
      | OtherError => None
      end
  end.

(** [RedisClient.delete] *)
Definition delete (key : string) (st : storage) : storage * bool :=
  match st !! key with
  | Some _ => (base.delete key st, true)
  | None => (st, true)
  end.

(** [RedisClient.exists] *)
Definition exists_ (key : string) (st : storage) : bool :=
  bool_decide (is_Some (st !! key)).

Lemma set_dict_or_list_stores key value s st :
  is_dict_or_list value = true ->
  json_dumps value = Some s ->
  set key value st = (<[key := s]> st, true).
Proof. intros Hc Hd. unfold set. by rewrite Hc, Hd. Qed.

Lemma get_insert key s st :
  get key (<[key := s]> st) =
    match json_loads s with
    | Decoded v => Some v
    | JSONDecodeError => Some (PStr s)
    | OtherError => None
    end.
Proof. unfold get. by rewrite lookup_insert_eq. Qed.

Lemma delete_absent key st :
  st !! key = None -> delete key st = (st, true).
Proof. intros H. unfold delete. by rewrite H. Qed.

Lemma delete_returns_true key st : (delete key st).2 = true.
Proof. unfold delete. by destruct (st !! key). Qed.

Lemma delete_removes key st : (delete key st).1 !! key = None.
Proof.
  unfold delete. destruct (st !! key) eqn:E; simpl; [|done].
  apply lookup_delete_eq.
Qed.

(** C10. For a dictionary or list value that [json.dumps] encodes and
    [json.loads] decodes back to itself, [set] answers [True] and a [get] of
    the same key afterwards returns the stored value; and [delete] answers
    [True] for every key, leaving the storage as it was when the key is
    absent. *)
Theorem set_get_delete_contract key value s st :
  is_dict_or_list value = true ->
  json_dumps value = Some s ->
  json_loads s = Decoded value ->
  (set key value st).2 = true
  /\ get key (set key value st).1 = Some value
  /\ (forall k st0, (delete k st0).2 = true
                   /\ (st0 !! k = None -> (delete k st0).1 = st0)).
Proof.
  intros Hc Hd Hl.
  rewrite (set_dict_or_list_stores _ _ _ _ Hc Hd); simpl.
  rewrite get_insert, Hl.
  repeat split; auto using delete_returns_true.
  intros Hk. by rewrite delete_absent.
Qed.

(** X21. [set] and [delete] on one key leave every other key alone: what
    [get] and [exists] answer for another key is what they answered
    before. *)
Theorem other_keys_untouched key k value st :
  k <> key ->
  get k (set key value st).1 = get k st
  /\ exists_ k (set key value st).1 = exists_ k st
  /\ get k (delete key st).1 = get k st
  /\ exists_ k (delete key st).1 = exists_ k st.
Proof.
  intros Hk.
  assert (Hset : (set key value st).1 !! k = st !! k).
  { unfold set. destruct (is_dict_or_list value); simpl.
    - destruct (json_dumps value); simpl; [by apply lookup_insert_ne | done].
    - by apply lookup_insert_ne. }
  assert (Hdel : (delete key st).1 !! k = st !! k).
  { unfold delete. destruct (st !! key); simpl; [by apply lookup_delete_ne | done]. }
  unfold get, exists_. by rewrite Hset, Hdel.
Qed.

(** X22. A value that is neither a dictionary nor a list is stored as its
    text, and [set] answers [True]; what a [get] of the key then returns
    is not the value but what [json.loads] reads in that text, or the text
    itself when it is no JSON document. *)
Theorem scalar_comes_back_as_text key value st :
  is_dict_or_list value = false ->
  (set key value st).2 = true
  /\ (set key value st).1 !! key = Some (py_str value)
  /\ get key (set key value st).1
     = match json_loads (py_str value) with
       | Decoded v => Some v
       | JSONDecodeError => Some (PStr (py_str value))
       | OtherError => None
       end.
Proof.
  intros Hs. unfold set. rewrite Hs. simpl.
  split; [done|]. split; [apply lookup_insert_eq | apply get_insert].
Qed.

End Client.

End Redis.

(** ** A reference JSON codec

    [json] belongs to the Python standard library; the client above is
    stated for any codec.  This one covers the fragment without floats and
    without escape sequences, printed with the separators [json.dumps] uses
    by default, and serves to run the client on concrete values. *)

Module Json.

Definition dquote : Ascii.ascii := Ascii.ascii_of_nat 34.

Definition plain_char (c : Ascii.ascii) : bool :=
  let n := Ascii.nat_of_ascii c in
  (32 <=? n)%nat && (n <? 127)%nat && negb (n =? 34)%nat && negb (n =? 92)%nat.

Fixpoint plain (s : string) : bool :=
  match s with
  | EmptyString => true
  | String c s' => plain_char c && plain s'
  end.

Definition dumps_str (s : string) : option string :=
  if plain s then Some (String dquote s +:+ String dquote "") else None.

Definition dumps_int (z : Z) : string :=
  DecimalString.NilZero.string_of_int (Z.to_int z).

Definition join_opt (sep : string) (parts : list (option string)) : option string :=
  String.concat sep <$> mapM id parts.

Fixpoint dumps (v : pyval) : option string :=
  match v with
  | PNone => Some "null"
  | PBool true => Some "true"
  | PBool false => Some "false"
  | PInt z => Some (dumps_int z)
  | PStr s => dumps_str s
  | PList l =>
      body ← join_opt ", " (map dumps l);
      Some ("[" +:+ body +:+ "]")
  | PDict d =>
      body ← join_opt ", "
        (map (fun kv : string * option string =>
                k ← dumps_str kv.1; x ← kv.2; Some (k +:+ ": " +:+ x))
             (map_to_list (dumps <$> d)));
      Some ("{" +:+ body +:+ "}")
  end.

Fixpoint skip_ws (s : string) : string :=
  match s with
  | String " "%char s' => skip_ws s'
  | _ => s
  end.

(** The characters of a string literal up to its closing quote. *)
Fixpoint take_plain (s : string) : option (string * string) :=
  match s with
  | EmptyString => None
  | String c s' =>
      if Ascii.eqb c dquote then Some ("", s')
      else if plain_char c then
        '(a, r) ← take_plain s'; Some (String c a, r)
      else None
  end.

Definition is_digit (c : Ascii.ascii) : bool :=
  let n := Ascii.nat_of_ascii c in (48 <=? n)%nat && (n <=? 57)%nat.

Fixpoint take_digits (s : string) : string * string :=
  match s with
  | String c s' =>
      if is_digit c then let '(a, r) := take_digits s' in (String c a, r)
      else ("", s)
  | EmptyString => ("", "")
  end.

Definition parse_int (s : string) : option (pyval * string) :=
  let '(sign, s1) :=
    match s with String "-"%char r => ("-", r) | _ => ("", s) end in
  let '(ds, r) := take_digits s1 in
  match ds with
  | EmptyString => None
  | _ => i ← DecimalString.NilZero.int_of_string (sign +:+ ds);
         Some (PInt (Z.of_int i), r)
  end.

Fixpoint parse (fuel : nat) (s : string) : option (pyval * string) :=
  match fuel with
  | O => None
  | S n =>
      match skip_ws s with
      | String "n"%char (String "u"%char (String "l"%char (String "l"%char r))) => Some (PNone, r)
      | String "t"%char (String "r"%char (String "u"%char (String "e"%char r))) => Some (PBool true, r)
      | String "f"%char (String "a"%char (String "l"%char (String "s"%char (String "e"%char r)))) =>
          Some (PBool false, r)
      | String "["%char r =>
          match skip_ws r with
          | String "]"%char r' => Some (PList [], r')
          | _ => '(l, r') ← parse_items n r; Some (PList l, r')
          end
      | String "{"%char r =>
          match skip_ws r with
          | String "}"%char r' => Some (PDict ∅, r')
          | _ => '(d, r') ← parse_members n r; Some (PDict d, r')
          end
      | String c r as s' =>
          if Ascii.eqb c dquote then
            '(a, r') ← take_plain r; Some (PStr a, r')
          else parse_int s'
      | EmptyString => None
      end
  end
with parse_items (fuel : nat) (s : string) : option (list pyval * string) :=
  match fuel with
  | O => None
  | S n =>
      '(v, r) ← parse n s;
      match skip_ws r with
      | String ","%char r' => '(l, r'') ← parse_items n r'; Some (v :: l, r'')
      | String "]"%char r' => Some ([v], r')
      | _ => None
      end
  end
with parse_members (fuel : nat) (s : string) : option (gmap string pyval * string) :=
  match fuel with
  | O => None
  | S n =>
      match skip_ws s with
      | String c r =>
          if Ascii.eqb c dquote then
            '(k, r1) ← take_plain r;
            match skip_ws r1 with
            | String ":"%char r2 =>
                '(v, r3) ← parse n r2;
                match skip_ws r3 with
                | String ","%char r4 =>
                    '(d, r5) ← parse_members n r4; Some (<[k := v]> d, r5)
                | String "}"%char r4 => Some ({[k := v]}, r4)
                | _ => None
                end
            | _ => None
            end
          else None
      | EmptyString => None
      end
  end.

Definition loads (s : string) : Redis.loaded :=
  match parse (2 * String.length s + 2) s with
  | Some (v, r) =>
      match skip_ws r with
      | EmptyString => Redis.Decoded v
      | _ => Redis.JSONDecodeError
      end
  | None => Redis.JSONDecodeError
  end.

(** [str(value)] on the values without a float. *)
Definition py_str (v : pyval) : string :=
  match v with
  | PNone => "None"
  | PBool true => "True"
  | PBool false => "False"
  | PInt z => dumps_int z
  | PStr s => s
  | _ => default "" (dumps v)
  end.

Definition sample_progress : pyval :=
  PDict {[ "status" := PStr "started"; "files_processed" := PInt 0 ]}.

End Json.

Lemma set_get_delete_contract_witness :
  Redis.is_dict_or_list Json.sample_progress = true
  /\ (Redis.set Json.dumps Json.py_str "session:s1" Json.sample_progress ∅).2 = true
  /\ Redis.get Json.loads "session:s1"
       (Redis.set Json.dumps Json.py_str "session:s1" Json.sample_progress ∅).1
     = Some Json.sample_progress.
Proof.
  split; [reflexivity|].
  pose proof (Redis.set_get_delete_contract Json.dumps Json.loads Json.py_str
                "session:s1" Json.sample_progress
                (default "" (Json.dumps Json.sample_progress)) ∅
                eq_refl ltac:(vm_compute; reflexivity)
                ltac:(vm_compute; reflexivity)) as (H1 & H2 & _).
  split; assumption.
Defined.

Lemma other_keys_untouched_witness :
  Redis.get Json.loads "session:s1"
    (Redis.set Json.dumps Json.py_str "session:s2" Json.sample_progress
       {[ "session:s1" := "[]" ]}).1
  = Redis.get Json.loads "session:s1" {[ "session:s1" := "[]" ]}
  /\ Redis.exists_ "session:s1"
       (Redis.set Json.dumps Json.py_str "session:s2" Json.sample_progress
          {[ "session:s1" := "[]" ]}).1
     = Redis.exists_ "session:s1" {[ "session:s1" := "[]" ]}
  /\ Redis.get Json.loads "session:s1"
       (Redis.delete "session:s2" {[ "session:s1" := "[]" ]}).1
     = Redis.get Json.loads "session:s1" {[ "session:s1" := "[]" ]}
  /\ Redis.exists_ "session:s1" (Redis.delete "session:s2" {[ "session:s1" := "[]" ]}).1
     = Redis.exists_ "session:s1" {[ "session:s1" := "[]" ]}.
Proof.
  exact (Redis.other_keys_untouched Json.dumps Json.loads Json.py_str
           "session:s2" "session:s1" Json.sample_progress {[ "session:s1" := "[]" ]}
           ltac:(discriminate)).
Defined.

(** The text [42] is stored as it is and read back as the number. *)
Lemma scalar_comes_back_as_text_witness :
  (Redis.set Json.dumps Json.py_str "retries" (PStr "42") ∅).2 = true
  /\ (Redis.set Json.dumps Json.py_str "retries" (PStr "42") ∅).1 !! "retries"
     = Some (Json.py_str (PStr "42"))
  /\ Redis.get Json.loads "retries"
       (Redis.set Json.dumps Json.py_str "retries" (PStr "42") ∅).1
     = match Json.loads (Json.py_str (PStr "42")) with
       | Redis.Decoded v => Some v
       | Redis.JSONDecodeError => Some (PStr (Json.py_str (PStr "42")))
       | Redis.OtherError => None
       end.
Proof.
  exact (Redis.scalar_comes_back_as_text Json.dumps Json.loads Json.py_str
           "retries" (PStr "42") ∅ eq_refl).
Defined.

(** ** The stage contract ([agents/base_agent.py]) *)

Module Agent.

(** The message classes of [langchain_core.messages]. *)
Inductive message : Type :=
| SystemMessage (content : string)
| HumanMessage (content : string)
| AIMessage (content : string).

Definition content (m : message) : string :=
  match m with
  | SystemMessage c | HumanMessage c | AIMessage c => c
  end.

Definition is_system (m : message) : bool :=
  match m with
  | SystemMessage _ => true
  | _ => false
  end.

(** [AgentConfig]: the fields an invocation reads.  [temperature],
    [max_tokens], [system_prompt] and [tools] only reach the constructor of
    the language model. *)
Record AgentConfig : Type := mkConfig {
  model : string;
  tone : string
}.

(** [AgentResult].  Clock readings are integers here (a reading of
    [time.time()] is a float in the source); only their differences are
    stored. *)
Record AgentResult : Type := mkResult {
  success : bool;
  data : gmap string pyval;
  metadata : gmap string pyval;
  errors : list string;
  processing_time : Z;
  tokens_used : option Z
}.

(** The language model behind [self.llm]: [ainvoke] on a list of messages
    gives the [content] of the response. *)
Definition llm_client : Type := list message -> outcome string.

(** The attributes of a [BaseAgent] instance. *)
Record BaseAgent : Type := mkAgent {
  config : AgentConfig;
  llm : option llm_client;
  is_active : bool;
  last_run : option Z;
  total_runs : Z;
  total_tokens : Z
}.

(** The abstract methods a concrete agent supplies. *)
Class AgentImpl : Type := {
  get_system_prompt : string -> string;
  process_response : string -> gmap string pyval -> outcome (gmap string pyval)
}.

(** The mutable store of an invocation: the agent and the number of clock
    readings taken so far. *)
Definition store : Type := BaseAgent * nat.

Section Invocation.

Context `{impl : AgentImpl}.

(** The system clock: the n-th reading taken. *)
Variable clock : nat -> Z.

Definition read_clock : M store Z :=
  fun '(a, n) => ((a, S n), Val (clock n)).

Definition self : M store BaseAgent := fun s => (s, Val s.1).

Definition set_stats (lr : option Z) (runs : Z) (a : BaseAgent) : BaseAgent :=
  {| config := config a; llm := llm a; is_active := is_active a;
     last_run := lr; total_runs := runs; total_tokens := total_tokens a |}.

Definition set_total_tokens (t : Z) (a : BaseAgent) : BaseAgent :=
  {| config := config a; llm := llm a; is_active := is_active a;
     last_run := last_run a; total_runs := total_runs a; total_tokens := t |}.

Definition update (f : BaseAgent -> BaseAgent) : M store unit :=
  modify (fun s : store => (f s.1, s.2)).

(** [_estimate_tokens]: one token for four characters. *)
Definition _estimate_tokens (messages : list message) (response : string) : Z :=
  let total_chars :=
    foldr (fun m acc => Z.of_nat (String.length (content m)) + acc) 0 messages
    + Z.of_nat (String.length response) in
  total_chars `quot` 4.

(** [BaseAgent._call_llm] *)
Definition _call_llm (messages : list message) (context : gmap string pyval)
  : M store AgentResult :=
  let! start_time := read_clock in
  try_except
    (let! a := self in
     match is_active a, llm a with
     | true, Some client =>
         let messages :=
           if existsb is_system messages then messages
           else SystemMessage (get_system_prompt (tone (config a))) :: messages in
         let! response := await (client messages) in
         let! processed_data := await (process_response response context) in
         let! now := read_clock in
         let processing_time := now - start_time in
         let! utcnow := read_clock in
         do! update (fun a => set_stats (Some utcnow) (total_runs a + 1) a) in
         let estimated_tokens := _estimate_tokens messages response in
         do! update (fun a => set_total_tokens (total_tokens a + estimated_tokens) a) in
         let! a := self in
         ret {| success := true;
                data := processed_data;
                metadata := {[ "model" := PStr (model (config a));
                               "tone" := PStr (tone (config a));
                               "processing_time" := PInt processing_time;
                               "estimated_tokens" := PInt estimated_tokens ]};
                errors := [];
                processing_time := processing_time;
                tokens_used := Some estimated_tokens |}
     | _, _ => raise "Agent is not active or LLM not initialized"
     end)
    (fun e =>
       let! now := read_clock in
       let processing_time := now - start_time in
       let! a := self in
       ret {| success := false;
              data := ∅;
              metadata := {[ "model" := PStr (model (config a));
                             "tone" := PStr (tone (config a));
                             "processing_time" := PInt processing_time;
                             "error" := PStr e ]};
              errors := [e];
              processing_time := processing_time;
              tokens_used := None |}).

(** [BaseAgent.reset_stats] *)
Definition reset_stats (a : BaseAgent) : BaseAgent :=
  set_total_tokens 0 (set_stats None 0 a).

(** What the except clause of [_call_llm] returns. *)
Definition failure_result (a : BaseAgent) (e : string) (elapsed : Z) : AgentResult :=
  {| success := false;
     data := ∅;
     metadata := {[ "model" := PStr (model (config a));
                    "tone" := PStr (tone (config a));
                    "processing_time" := PInt elapsed;
                    "error" := PStr e ]};
     errors := [e];
     processing_time := elapsed;
     tokens_used := None |}.

(** An invocation that cannot reach the model fails without touching the
    agent. *)
Lemma _call_llm_not_ready messages context a n :
  is_active a = false \/ llm a = None ->
  _call_llm messages context (a, n)
  = ((a, S (S n)),
     Val (failure_result a "Agent is not active or LLM not initialized"
            (clock (S n) - clock n))).
Proof.
  intros H. unfold _call_llm, bind, try_except, read_clock, self, raise, ret; simpl.
  destruct (is_active a), (llm a); destruct H; try discriminate; reflexivity.
Qed.

(** The messages sent to the model: a system message is put in front when
    the caller gave none. *)
Definition with_system_prompt (a : BaseAgent) (messages : list message) : list message :=
  if existsb is_system messages then messages
  else SystemMessage (get_system_prompt (tone (config a))) :: messages.

(** A fault of the model is turned into a failed result; the agent is left
    as it was. *)
Lemma _call_llm_model_fault messages context a n client e :
  is_active a = true -> llm a = Some client ->
  client (with_system_prompt a messages) = Exc e ->
  _call_llm messages context (a, n)
  = ((a, S (S n)), Val (failure_result a e (clock (S n) - clock n))).
Proof.
  intros Ha Hl Hc.
  unfold _call_llm, bind, try_except, read_clock, self, raise, ret, await; simpl.
  rewrite Ha, Hl. unfold with_system_prompt in Hc. by rewrite Hc.
Qed.

(** So is a fault of [process_response]. *)
Lemma _call_llm_processing_fault messages context a n client response e :
  is_active a = true -> llm a = Some client ->
  client (with_system_prompt a messages) = Val response ->
  process_response response context = Exc e ->
  _call_llm messages context (a, n)
  = ((a, S (S n)), Val (failure_result a e (clock (S n) - clock n))).
Proof.
  intros Ha Hl Hc Hp.
  unfold _call_llm, bind, try_except, read_clock, self, raise, ret, await; simpl.
  rewrite Ha, Hl. unfold with_system_prompt in Hc. rewrite Hc; simpl. by rewrite Hp.
Qed.

(** A successful invocation counts one more run and stamps [last_run]. *)
Lemma _call_llm_success messages context a n client response processed :
  is_active a = true -> llm a = Some client ->
  client (with_system_prompt a messages) = Val response ->
  process_response response context = Val processed ->
  exists a' r,
    _call_llm messages context (a, n) = ((a', S (S (S n))), Val r)
    /\ success r = true /\ data r = processed
    /\ total_runs a' = total_runs a + 1
    /\ last_run a' = Some (clock (S (S n)))
    /\ total_tokens a'
       = total_tokens a + _estimate_tokens (with_system_prompt a messages) response.
Proof.
  intros Ha Hl Hc Hp.
  unfold _call_llm, bind, try_except, read_clock, self, raise, ret, await,
    update, modify; simpl.
  rewrite Ha, Hl. unfold with_system_prompt in *. rewrite Hc; simpl. rewrite Hp; simpl.
  eexists _, _. split; [reflexivity|]. simpl. by repeat split.
Qed.

(** The counters after an invocation that completed, by the success flag of
    its result. *)
Lemma _call_llm_counters messages context a n a' n' r :
  _call_llm messages context (a, n) = ((a', n'), Val r) ->
  if success r
  then total_runs a' = total_runs a + 1 /\ last_run a' = Some (clock (S (S n)))
  else total_runs a' = total_runs a /\ last_run a' = last_run a.
Proof.
  unfold _call_llm, bind, try_except, read_clock, self, raise, ret, await,
    update, modify; simpl.
  destruct (is_active a) eqn:Ha, (llm a) as [client|] eqn:Hl; simpl;
    try (intros [= <- <- <-]; simpl; by split).
  destruct (client _) as [response|e|]; simpl;
    try (intros [= <- <- <-]; simpl; by split); try discriminate.
  destruct (process_response response context) as [processed|e|]; simpl;
    try (intros [= <- <- <-]; simpl; by split); try discriminate.
Qed.

(** [_call_llm] raises nothing: every exception ends in its except clause. *)
Lemma _call_llm_no_exception messages context s e :
  (_call_llm messages context s).2 <> Exc e.
Proof.
  destruct s as [a n].
  unfold _call_llm, bind, try_except, read_clock, self, raise, ret, await,
    update, modify; simpl.
  destruct (is_active a), (llm a) as [client|]; simpl; try discriminate.
  destruct (client _) as [response|e'|]; simpl; try discriminate.
  destruct (process_response response context) as [processed|e'|]; simpl;
    discriminate.
Qed.

(** *** Further properties of an invocation *)

(** X17. [_call_llm] never raises, and a result it returns has one of two
    shapes: a success, with no error and a token count; or a failure, with
    no data, no token count, and exactly one error, which is also the
    [error] entry of its metadata. *)
Theorem _call_llm_result_shape messages context s :
  match (_call_llm messages context s).2 with
  | Val r =>
      (success r = true /\ errors r = [] /\ is_Some (tokens_used r))
      \/ (success r = false /\ data r = ∅ /\ tokens_used r = None
          /\ exists e, errors r = [e] /\ metadata r !! "error" = Some (PStr e))
  | Exc _ => False
  | Hang => True
  end.
Proof.
  destruct s as [a n].
  assert (Hfail : forall e elapsed,
            success (failure_result a e elapsed) = false
            /\ data (failure_result a e elapsed) = ∅
            /\ tokens_used (failure_result a e elapsed) = None
            /\ exists e', errors (failure_result a e elapsed) = [e']
                          /\ metadata (failure_result a e elapsed) !! "error"
                             = Some (PStr e')).
  { intros e elapsed. repeat split. exists e. split; [done|]. simpl.
    by rewrite !lookup_insert_ne, lookup_singleton_eq by done. }
  unfold _call_llm, bind, try_except, read_clock, self, raise, ret, await,
    update, modify; simpl.
  destruct (is_active a), (llm a) as [client|]; simpl; try (right; apply Hfail).
  destruct (client _) as [response|e|]; simpl; try done; [|right; apply Hfail].
  destruct (process_response response context) as [processed|e|]; simpl; try done;
    [|right; apply Hfail].
  left. repeat split. by eexists.
Qed.

Lemma _estimate_tokens_nonneg messages response :
  0 <= _estimate_tokens messages response.
Proof.
  unfold _estimate_tokens. apply Z.quot_pos; [|done].
  assert (0 <= foldr (fun m acc => Z.of_nat (String.length (content m)) + acc) 0 messages).
  { induction messages as [|m ms IH]; simpl; lia. }
  lia.
Qed.

(** An invocation leaves the configuration, the model client and the
    activity flag of the agent alone. *)
Lemma _call_llm_keeps_handle messages context a n :
  let a' := (_call_llm messages context (a, n)).1.1 in
  config a' = config a /\ llm a' = llm a /\ is_active a' = is_active a.
Proof.
  unfold _call_llm, bind, try_except, read_clock, self, raise, ret, await,
    update, modify; simpl.
  destruct (is_active a) eqn:Ha, (llm a) as [client|] eqn:Hl; simpl;
    rewrite ?Ha, ?Hl; try done.
  destruct (client _) as [response|e|]; simpl; rewrite ?Ha, ?Hl; try done.
  destruct (process_response response context) as [processed|e|]; simpl;
    by rewrite ?Ha, ?Hl.
Qed.

(** X18. Whatever becomes of it, an invocation leaves the configuration,
    the model client and the activity flag of the agent as they were; the
    run counter grows by one at most and the token counter never
    decreases. *)
Theorem _call_llm_counters_grow messages context a n :
  let a' := (_call_llm messages context (a, n)).1.1 in
  config a' = config a /\ llm a' = llm a /\ is_active a' = is_active a
  /\ total_runs a <= total_runs a' <= total_runs a + 1
  /\ total_tokens a <= total_tokens a'.
Proof.
  intros a'. destruct (_call_llm_keeps_handle messages context a n) as (Hc & Hl & Ha).
  repeat split; try done; unfold a'; clear;
    unfold _call_llm, bind, try_except, read_clock, self, raise, ret, await,
      update, modify; simpl;
    destruct (is_active a), (llm a) as [client|]; simpl; try lia;
    destruct (client _) as [response|e|]; simpl; try lia;
    destruct (process_response response context) as [processed|e|]; simpl; try lia.
  pose proof (_estimate_tokens_nonneg
                (if existsb is_system messages then messages
                 else SystemMessage (get_system_prompt (tone (config a))) :: messages)
                response).
  lia.
Qed.

End Invocation.

(** A concrete agent for running examples: its model answers, or refuses the
    connection. *)
Definition plain_impl : AgentImpl :=
  {| get_system_prompt := fun tone => "You are an expert PHP developer.";
     process_response := fun response _ => Val {[ "description" := PStr response ]} |}.

Definition default_config : AgentConfig :=
  {| model := "llama-3-70b"; tone := "professional" |}.

Definition fresh_agent (client : llm_client) : BaseAgent :=
  {| config := default_config; llm := Some client; is_active := true;
     last_run := None; total_runs := 0; total_tokens := 0 |}.

Definition answering : llm_client := fun _ => Val "Creates a user.".
Definition unreachable : llm_client := fun _ => Exc "Connection error.".

Definition wall_clock (n : nat) : Z := 1000 + Z.of_nat n.

(** *** The life of an agent *)

Section Lifecycle.

Context `{impl : AgentImpl}.

Variable clock : nat -> Z.

(** [os.getenv], and the constructor of the model client, by the
    configuration it is given (model, temperature and token limit), the
    address of the service and the key. *)
Variable getenv : string -> option string.
Variable ChatOpenAI : AgentConfig -> string -> string -> outcome llm_client.

Definition set_config (c : AgentConfig) (a : BaseAgent) : BaseAgent :=
  {| config := c; llm := llm a; is_active := is_active a;
     last_run := last_run a; total_runs := total_runs a; total_tokens := total_tokens a |}.

Definition set_llm (c : option llm_client) (a : BaseAgent) : BaseAgent :=
  {| config := config a; llm := c; is_active := is_active a;
     last_run := last_run a; total_runs := total_runs a; total_tokens := total_tokens a |}.

Definition set_is_active (b : bool) (a : BaseAgent) : BaseAgent :=
  {| config := config a; llm := llm a; is_active := b;
     last_run := last_run a; total_runs := total_runs a; total_tokens := total_tokens a |}.

(** [BaseAgent._get_openrouter_key] *)
Definition _get_openrouter_key : outcome string :=
  match getenv "OPENROUTER_API_KEY" with
  | Some api_key =>
      if negb (String.eqb api_key "") then Val api_key
      else Exc "OPENROUTER_API_KEY environment variable not set"
  | None => Exc "OPENROUTER_API_KEY environment variable not set"
  end.

(** [BaseAgent._initialize_llm] *)
Definition _initialize_llm : M BaseAgent unit :=
  try_except
    (let! a := get in
     let! api_key := await _get_openrouter_key in
     let! client := await (ChatOpenAI (config a) "https://openrouter.ai/api/v1" api_key) in
     modify (set_llm (Some client)))
    (fun e => modify (set_is_active false)).

(** [BaseAgent.__init__]: the new instance and how the call ended. *)
Definition __init__ (cfg : option AgentConfig) : BaseAgent * outcome unit :=
  _initialize_llm
    {| config := default default_config cfg; llm := None; is_active := true;
       last_run := None; total_runs := 0; total_tokens := 0 |}.

(** [BaseAgent.update_config] *)
Definition update_config (new_config : AgentConfig) : M BaseAgent unit :=
  do! modify (set_config new_config) in
  _initialize_llm.

(** The calls a holder of the agent can make on it. *)
Inductive method : Type :=
| call_llm (messages : list message) (context : gmap string pyval)
| call_update_config (new_config : AgentConfig)
| call_reset_stats.

Definition on_agent {A} (c : M BaseAgent A) : M store A :=
  fun s => let '(a', r) := c s.1 in ((a', s.2), r).

Definition invoke (m : method) : M store unit :=
  match m with
  | call_llm messages context => do! _call_llm clock messages context in ret tt
  | call_update_config new_config => on_agent (update_config new_config)
  | call_reset_stats => update reset_stats
  end.

Lemma _initialize_llm_cases a :
  _initialize_llm a =
    match _get_openrouter_key with
    | Val api_key =>
        match ChatOpenAI (config a) "https://openrouter.ai/api/v1" api_key with
        | Val client => (set_llm (Some client) a, Val tt)
        | Exc e => (set_is_active false a, Val tt)
        | Hang => (a, Hang)
        end
    | Exc e => (set_is_active false a, Val tt)
    | Hang => (a, Hang)
    end.
Proof.
  unfold _initialize_llm, try_except, bind, get, await, modify; simpl.
  destruct _get_openrouter_key as [api_key|e|]; simpl; try done.
  by destruct (ChatOpenAI _ _ _).
Qed.

(** X19. A new agent is usable exactly when its model client could be
    built: when the constructor of the agent comes back, the agent is
    active if and only if the environment holds a non-empty
    [OPENROUTER_API_KEY] and the constructor of the client returned a
    client for it, which the agent then holds; otherwise (no key, an empty
    key, or a constructor that raised) the agent is inactive and holds no
    client, and the constructor of the agent has raised nothing. *)
Theorem new_agent_active_iff_client cfg :
  (__init__ cfg).2 <> Hang ->
  let a := (__init__ cfg).1 in
  (__init__ cfg).2 = Val tt
  /\ config a = default default_config cfg
  /\ (is_active a = true <->
      exists api_key client,
        getenv "OPENROUTER_API_KEY" = Some api_key /\ api_key <> ""
        /\ ChatOpenAI (config a) "https://openrouter.ai/api/v1" api_key = Val client
        /\ llm a = Some client)
  /\ (is_active a = false -> llm a = None).
Proof.
  unfold __init__. rewrite _initialize_llm_cases. unfold _get_openrouter_key. simpl.
  destruct (getenv "OPENROUTER_API_KEY") as [api_key|] eqn:Hkey; simpl.
  - destruct (String.eqb api_key "") eqn:Hempty; simpl.
    + apply String.eqb_eq in Hempty as ->. intros _. repeat split; try done.
      intros (k & c & [= <-] & Hne & _). done.
    + apply String.eqb_neq in Hempty.
      destruct (ChatOpenAI _ _ api_key) as [client|e|] eqn:Hc; simpl; intros Hback;
        try done.
      * repeat split; try done. intros _. by exists api_key, client.
      * repeat split; try done.
        intros (k & c & [= <-] & _ & Hc' & _). simpl in Hc'. congruence.
  - intros _. repeat split; try done. intros (k & c & [=] & _).
Qed.

(** An agent that is inactive stays so. *)
Definition stays_inactive : relation store :=
  fun s s' => is_active s.1 = false -> is_active s'.1 = false.

#[local] Instance stays_inactive_preorder : PreOrder stays_inactive.
Proof.
  split.
  - intros s H. exact H.
  - intros s1 s2 s3 H1 H2 H. by apply H2, H1.
Qed.

Lemma invoke_stays_inactive m : preserves stays_inactive (invoke m).
Proof.
  intros [a n] Ha. simpl in Ha. destruct m as [messages context|new_config|]; simpl.
  - unfold bind.
    destruct (_call_llm_keeps_handle clock messages context a n) as (_ & _ & Hk).
    destruct (_call_llm clock messages context (a, n)) as [[a' n'] [r|e|]];
      simpl in *; congruence.
  - unfold on_agent, update_config, bind, modify; simpl.
    rewrite _initialize_llm_cases.
    destruct _get_openrouter_key as [api_key|e|]; simpl; try done.
    by destruct (ChatOpenAI _ _ _).
  - done.
Qed.

(** X20. Nothing brings an inactive agent back: after any sequence of
    invocations, configuration updates and resets of the counters, an agent
    that was inactive is still inactive, even when an update found a key
    and built a client; and every invocation of it then fails with the
    error [Agent is not active or LLM not initialized]. *)
Theorem inactive_agent_stays_inactive (ms : list method) a n :
  is_active a = false ->
  let s' := (for_each ms invoke (a, n)).1 in
  is_active s'.1 = false
  /\ forall messages context,
       (_call_llm clock messages context s').2
       = Val (failure_result s'.1 "Agent is not active or LLM not initialized"
                (clock (S s'.2) - clock s'.2)).
Proof.
  intros Ha s'.
  assert (Hs : is_active s'.1 = false).
  { apply (preserves_for_each stays_inactive ms invoke invoke_stays_inactive (a, n) Ha). }
  split; [done|]. intros messages context. destruct s' as [a' n'].
  by rewrite (_call_llm_not_ready clock messages context a' n' (or_introl Hs)).
Qed.

End Lifecycle.

(** An environment without the key and one with it; a constructor that
    returns a client that answers. *)
Definition no_key (name : string) : option string := None.

Definition with_key (name : string) : option string :=
  if String.eqb name "OPENROUTER_API_KEY" then Some "sk-or-v1-0000" else None.

Definition sample_ChatOpenAI (c : AgentConfig) (api_base api_key : string)
  : outcome llm_client :=
  Val answering.

Lemma new_agent_active_iff_client_witness :
  (__init__ with_key sample_ChatOpenAI None).2 = Val tt
  /\ config (__init__ with_key sample_ChatOpenAI None).1 = default default_config None
  /\ (is_active (__init__ with_key sample_ChatOpenAI None).1 = true <->
      exists api_key client,
        with_key "OPENROUTER_API_KEY" = Some api_key /\ api_key <> ""
        /\ sample_ChatOpenAI (config (__init__ with_key sample_ChatOpenAI None).1)
             "https://openrouter.ai/api/v1" api_key = Val client
        /\ llm (__init__ with_key sample_ChatOpenAI None).1 = Some client)
  /\ (is_active (__init__ with_key sample_ChatOpenAI None).1 = false ->
      llm (__init__ with_key sample_ChatOpenAI None).1 = None).
Proof.
  exact (new_agent_active_iff_client with_key sample_ChatOpenAI None
           ltac:(discriminate)).
Defined.

Lemma inactive_agent_stays_inactive_witness :
  let s' := (for_each
               [call_update_config default_config;
                call_llm [HumanMessage "Document class User."] ∅;
                call_reset_stats]
               (invoke (impl := plain_impl) wall_clock with_key sample_ChatOpenAI)
               ((__init__ no_key sample_ChatOpenAI None).1, 0%nat)).1 in
  is_active s'.1 = false
  /\ forall messages context,
       (_call_llm (impl := plain_impl) wall_clock messages context s').2
       = Val (failure_result s'.1 "Agent is not active or LLM not initialized"
                (wall_clock (S s'.2) - wall_clock s'.2)).
Proof.
  exact (inactive_agent_stays_inactive (impl := plain_impl) wall_clock with_key
           sample_ChatOpenAI
           [call_update_config default_config;
            call_llm [HumanMessage "Document class User."] ∅;
            call_reset_stats]
           (__init__ no_key sample_ChatOpenAI None).1 0%nat eq_refl).
Defined.

End Agent.

(** ** The orchestrator ([orchestrator/graph.py]) *)

Module Graph.

(** *** Session state *)

(** [AnalysisState], field by field. *)
Record AnalysisState : Type := mkState {
  session_id : string;
  project_id : Z;
  files : list (gmap string string);
  parsed_elements : gmap string pyval;
  agent_outputs : gmap string pyval;
  current_agent : option string;
  errors : list string;
  progress : gmap string pyval;
  metadata : gmap string pyval
}.

Definition set_parsed_elements (v : gmap string pyval) (s : AnalysisState) : AnalysisState :=
  {| session_id := session_id s; project_id := project_id s; files := files s;
     parsed_elements := v; agent_outputs := agent_outputs s;
     current_agent := current_agent s; errors := errors s;
     progress := progress s; metadata := metadata s |}.

Definition set_agent_outputs (v : gmap string pyval) (s : AnalysisState) : AnalysisState :=
  {| session_id := session_id s; project_id := project_id s; files := files s;
     parsed_elements := parsed_elements s; agent_outputs := v;
     current_agent := current_agent s; errors := errors s;
     progress := progress s; metadata := metadata s |}.

Definition set_current_agent (v : option string) (s : AnalysisState) : AnalysisState :=
  {| session_id := session_id s; project_id := project_id s; files := files s;
     parsed_elements := parsed_elements s; agent_outputs := agent_outputs s;
     current_agent := v; errors := errors s;
     progress := progress s; metadata := metadata s |}.

Definition set_errors (v : list string) (s : AnalysisState) : AnalysisState :=
  {| session_id := session_id s; project_id := project_id s; files := files s;
     parsed_elements := parsed_elements s; agent_outputs := agent_outputs s;
     current_agent := current_agent s; errors := v;
     progress := progress s; metadata := metadata s |}.

Definition set_progress (v : gmap string pyval) (s : AnalysisState) : AnalysisState :=
  {| session_id := session_id s; project_id := project_id s; files := files s;
     parsed_elements := parsed_elements s; agent_outputs := agent_outputs s;
     current_agent := current_agent s; errors := errors s;
     progress := v; metadata := metadata s |}.

Definition py_opt_str (o : option string) : pyval :=
  match o with
  | Some s => PStr s
  | None => PNone
  end.

Definition py_strs (l : list string) : pyval := PList (PStr <$> l).

Definition py_file (f : gmap string string) : pyval := PDict (PStr <$> f).

(** [AnalysisState.to_dict] *)
Definition to_dict (s : AnalysisState) : gmap string pyval :=
  {[ "session_id" := PStr (session_id s);
     "project_id" := PInt (project_id s);
     "files" := PList (py_file <$> files s);
     "parsed_elements" := PDict (parsed_elements s);
     "agent_outputs" := PDict (agent_outputs s);
     "current_agent" := py_opt_str (current_agent s);
     "errors" := py_strs (errors s);
     "progress" := PDict (progress s);
     "metadata" := PDict (metadata s) ]}.










(** *** Collaborators *)

(** The orchestrator awaits its collaborators: the parser, the stage, the
    durable store, the shared cache.  They are external to the core (spec 1
    and 6) and enter the development by their contract: the parser, the
    stage and the durable store as parameters that may answer, raise or, for
    the first two, never return; the cache as a key-value map.  The classes
    under [utils/] are development stand-ins: [DatabaseManager] and
    [PHPParser] define none of the methods awaited here, and the methods of
    [RedisClient] (module [Redis]) are synchronous. *)

(** The calls the orchestrator makes on the durable store and on the shared
    cache. *)
Inductive call : Type :=
| UpdateSessionStatus (session : string) (status : string) (error_message : option string)
| StoreAgentOutput (project : Z) (agent_type output_type : string) (content : pyval)
| GetAnalysisSession (session : string)
| CacheSet (key : string) (value : pyval)
| CacheGet (key : string)
| CacheDelete (key : string).

(** What an [AgentOrchestrator] holds besides its agents: the in-process
    registry [active_sessions], the content of the shared cache, the calls
    made on its collaborators so far, oldest first, and how many times the
    clock was read.  In the source the registry holds the very object the
    workflow mutates; here it holds the state as it was registered, and the
    run carries its own. *)
Record Orchestrator : Type := mkOrch {
  active_sessions : gmap string AnalysisState;
  cache : gmap string pyval;
  calls : list call;
  clock_reads : nat
}.

Definition set_active_sessions (v : gmap string AnalysisState) (o : Orchestrator) : Orchestrator :=
  {| active_sessions := v; cache := cache o; calls := calls o;
     clock_reads := clock_reads o |}.

Definition set_cache (v : gmap string pyval) (o : Orchestrator) : Orchestrator :=
  {| active_sessions := active_sessions o; cache := v; calls := calls o;
     clock_reads := clock_reads o |}.

Definition log (c : call) (o : Orchestrator) : Orchestrator :=
  {| active_sessions := active_sessions o; cache := cache o;
     calls := calls o ++ [c]; clock_reads := clock_reads o |}.

Definition tick (o : Orchestrator) : Orchestrator :=
  {| active_sessions := active_sessions o; cache := cache o;
     calls := calls o; clock_reads := S (clock_reads o) |}.

(** The statuses written to the durable store for a session, oldest first. *)
Definition status_writes (sid : string) (cs : list call) : list string :=
  omap (fun c => match c with
                 | UpdateSessionStatus s status _ =>
                     if String.eqb s sid then Some status else None
                 | _ => None
                 end) cs.

(** The store of a node function: the session state it is handed and the
    orchestrator it belongs to. *)
Definition run_store : Type := AnalysisState * Orchestrator.

(** *** Python idioms used by the node functions *)

(** [str(KeyError(k))] *)
Definition key_error (k : string) : string := "'" +:+ k +:+ "'".

(** [d[k]] *)
Definition getitem {S V} (d : gmap string V) (k : string) : M S V :=
  match d !! k with
  | Some v => ret v
  | None => raise (key_error k)
  end.

(** [x.get(k, default)], which only a dictionary has. *)
Definition dict_get (x : pyval) (k : string) (fallback : pyval) : outcome pyval :=
  match x with
  | PDict d => Val (default fallback (d !! k))
  | _ => Exc ("'" +:+ type_name x +:+ "' object has no attribute 'get'")
  end.

(** [list(x.keys())].  A [gmap] lists its keys in its own order, a Python
    dictionary in insertion order. *)
Definition dict_keys (x : pyval) : outcome (list string) :=
  match x with
  | PDict d => Val (map_to_list d).*1
  | _ => Exc ("'" +:+ type_name x +:+ "' object has no attribute 'keys'")
  end.

(** The [TypeError] of [x[field] = v] when [x] is no dictionary. *)
Definition setitem_error (x : pyval) : string :=
  match x with
  | PList _ => "list indices must be integers or slices, not str"
  | _ => "'" +:+ type_name x +:+ "' object does not support item assignment"
  end.

(** A local variable [L] beside the store [S]. *)
Definition outer {S L A} (c : M S A) : M (S * L) A :=
  fun sl => let '(s', r) := c sl.1 in ((s', sl.2), r).

Definition local {S L} : M (S * L) L := fun sl => (sl, Val sl.2).

Definition set_local {S L} (f : L -> L) : M (S * L) unit :=
  modify (fun sl : S * L => (sl.1, f sl.2)).

Definition with_local {S L A} (l0 : L) (c : M (S * L) A) : M S A :=
  fun s => let '(sl, r) := c (s, l0) in (sl.1, r).

(** *** The workflow *)

Section Workflow.

(** The parser collaborator: [parse_php_file(content, path)] and
    [parse_js_file(content, path)]. *)
Variable parse_php_file : string -> string -> outcome pyval.
Variable parse_js_file : string -> string -> outcome pyval.

(** The documenter stage:
    [analyze(parsed_elements, project_id, model, tone)]. *)
Variable analyze : gmap string pyval -> Z -> pyval -> pyval -> outcome pyval.

(** The durable store: the calls that raise, with the text of the
    exception, and what [get_analysis_session] answers. *)
Variable db_fault : call -> option string.
Variable db_session : string -> option pyval.

(** [datetime.utcnow().isoformat()], by the number of earlier readings. *)
Variable utcnow : nat -> string.

(** The keys of [self.agents]. *)
Definition agents : list string := ["documenter"].

Definition state : M run_store AnalysisState := fun s => (s, Val s.1).

Definition assign (f : AnalysisState -> AnalysisState) : M run_store unit :=
  modify (fun s : run_store => (f s.1, s.2)).

Definition on_orchestrator {A} (c : M Orchestrator A) : M run_store A :=
  fun s => let '(o, r) := c s.2 in ((s.1, o), r).

(** An awaited call on the durable store. *)
Definition db (c : call) : M Orchestrator unit :=
  fun o =>
    match db_fault c with
    | Some e => (o, Exc e)
    | None => (log c o, Val tt)
    end.

Definition now : M Orchestrator string :=
  fun o => (tick o, Val (utcnow (clock_reads o))).

(** The shared cache, by its contract (spec 6): [set], [get], [delete]. *)
Definition cache_set (key : string) (value : pyval) : M Orchestrator unit :=
  modify (fun o => log (CacheSet key value) (set_cache (<[key := value]> (cache o)) o)).

Definition cache_get (key : string) : M Orchestrator pyval :=
  fun o => (log (CacheGet key) o, Val (default PNone (cache o !! key))).

Definition cache_delete (key : string) : M Orchestrator unit :=
  modify (fun o => log (CacheDelete key) (set_cache (delete key (cache o)) o)).

(** [state.errors.append(msg)] *)
Definition append_error (msg : string) : M run_store unit :=
  assign (fun s => set_errors (errors s ++ [msg]) s).

(** [state.progress[key] = v] *)
Definition set_progress_item (key : string) (v : pyval) : M run_store unit :=
  assign (fun s => set_progress (<[key := v]> (progress s)) s).

(** [state.progress[key][field] = v] *)
Definition set_progress_field (key field : string) (v : pyval) : M run_store unit :=
  let! s := state in
  let! entry := getitem (progress s) key in
  match entry with
  | PDict d => set_progress_item key (PDict (<[field := v]> d))
  | other => raise (setitem_error other)
  end.

(** [state.metadata.get("agents_config", {})] *)
Definition agents_config_of (s : AnalysisState) : pyval :=
  default (PDict ∅) (metadata s !! "agents_config").

(** The body of the loop of [_parse_code], for the file at index [i]; the
    local variable is [parsed_elements]. *)
Definition parse_one (i : nat) (file_data : gmap string string)
  : M (run_store * gmap string pyval) unit :=
  try_except
    (let! file_path := getitem file_data "path" in
     let! file_content := getitem file_data "content" in
     do! (if endswith file_path ".php" then
            let! elements := await (parse_php_file file_content file_path) in
            set_local (insert file_path elements)
          else if endswith file_path ".js" || endswith file_path ".vue" then
            let! elements := await (parse_js_file file_content file_path) in
            set_local (insert file_path elements)
          else ret tt) in
     outer (set_progress_field "parsing" "files_processed" (PInt (Z.of_nat i + 1))))
    (fun e =>
       let! path := getitem file_data "path" in
       outer (append_error ("Parse error in " +:+ path +:+ ": " +:+ e))).

(** [AgentOrchestrator._parse_code] *)
Definition _parse_code : M run_store unit :=
  try_except
    (do! assign (set_current_agent (Some "parser")) in
     do! set_progress_item "parsing"
           (PDict {[ "status" := PStr "started"; "files_processed" := PInt 0 ]}) in
     let! s := state in
     with_local ∅
       (do! for_each (imap pair (files s)) (fun '(i, f) => parse_one i f) in
        let! parsed := local in
        do! outer (assign (set_parsed_elements parsed)) in
        outer (set_progress_field "parsing" "status" (PStr "completed"))))
    (fun e => append_error ("Code parsing failed: " +:+ e)).

(** [AgentOrchestrator._route_to_agents] *)
Definition _route_to_agents : M run_store unit :=
  try_except
    (do! assign (set_current_agent (Some "router")) in
     do! set_progress_item "routing" (PDict {[ "status" := PStr "started" ]}) in
     let! s := state in
     let agents_to_run := agents_config_of s in
     let agents_to_run :=
       if truthy agents_to_run then agents_to_run
       else PDict (list_to_map ((fun name => (name, PBool true)) <$> agents)) in
     let! names := await (dict_keys agents_to_run) in
     do! set_progress_field "routing" "agents_to_run" (py_strs names) in
     set_progress_field "routing" "status" (PStr "completed"))
    (fun e => append_error ("Agent routing failed: " +:+ e)).

(** [AgentOrchestrator._run_documenter] *)
Definition _run_documenter : M run_store unit :=
  try_except
    (let! s := state in
     let! enabled := await (dict_get (agents_config_of s) "documenter" (PBool true)) in
     if negb (truthy enabled) then ret tt
     else
       do! assign (set_current_agent (Some "documenter")) in
       do! set_progress_item "documenter" (PDict {[ "status" := PStr "started" ]}) in
       let! s := state in
       let! results :=
         await (analyze (parsed_elements s) (project_id s)
                  (default PNone (metadata s !! "model"))
                  (default PNone (metadata s !! "tone"))) in
       do! assign (fun s => set_agent_outputs (<["documenter" := results]> (agent_outputs s)) s) in
       set_progress_field "documenter" "status" (PStr "completed"))
    (fun e => append_error ("Documenter agent failed: " +:+ e)).

(** [AgentOrchestrator._collect_results].  The entries [results],
    [metadata] and [errors] of the aggregate hold the session's own objects
    in the source; here they hold their content at this point. *)
Definition _collect_results : M run_store unit :=
  try_except
    (do! assign (set_current_agent (Some "collector")) in
     do! set_progress_item "collection" (PDict {[ "status" := PStr "started" ]}) in
     let! s := state in
     let! timestamp := on_orchestrator now in
     let aggregated_results :=
       PDict {[ "session_id" := PStr (session_id s);
                "project_id" := PInt (project_id s);
                "timestamp" := PStr timestamp;
                "agents_run" := py_strs (map_to_list (agent_outputs s)).*1;
                "results" := PDict (agent_outputs s);
                "metadata" := PDict (metadata s);
                "errors" := py_strs (errors s) ]} in
     do! assign (fun s => set_agent_outputs
                            (<["aggregated" := aggregated_results]> (agent_outputs s)) s) in
     set_progress_field "collection" "status" (PStr "completed"))
    (fun e => append_error ("Results collection failed: " +:+ e)).

(** [AgentOrchestrator._get_output_type] *)
Definition _get_output_type (agent_type : string) : string :=
  let mapping : gmap string string :=
    {[ "documenter" := "documentation";
       "tester" := "tests";
       "security_auditor" := "security_report";
       "performance_optimizer" := "performance_report" ]} in
  default "other" (mapping !! agent_type).

(** [AgentOrchestrator._store_results] *)
Definition _store_results : M run_store unit :=
  try_except
    (do! assign (set_current_agent (Some "storer")) in
     do! set_progress_item "storage" (PDict {[ "status" := PStr "started" ]}) in
     let! s := state in
     do! for_each (map_to_list (agent_outputs s))
           (fun '(agent_type, output) =>
              if String.eqb agent_type "aggregated" then ret tt
              else on_orchestrator
                     (db (StoreAgentOutput (project_id s) agent_type
                            (_get_output_type agent_type) output))) in
     set_progress_field "storage" "status" (PStr "completed"))
    (fun e => append_error ("Results storage failed: " +:+ e)).

(** [AgentOrchestrator._handle_errors] *)
Definition _handle_errors : M run_store unit :=
  try_except
    (do! assign (set_current_agent (Some "error_handler")) in
     do! set_progress_item "error_handling" (PDict {[ "status" := PStr "started" ]}) in
     let! s := state in
     do! match errors s with
         | [] => ret tt
         | _ => on_orchestrator
                  (db (UpdateSessionStatus (session_id s) "failed"
                         (Some (String.concat "; " (errors s)))))
         end in
     set_progress_field "error_handling" "status" (PStr "completed"))
    (fun e => ret tt).

(** [AgentOrchestrator._should_continue] *)
Definition _should_continue (s : AnalysisState) : string :=
  match errors s with
  | [] => "continue"
  | _ => "error"
  end.

(** *** The graph and its driver *)

(** The nodes [_build_workflow] adds. *)
Inductive node : Type :=
| parse_code
| route_to_agents
| run_documenter
| collect_results
| store_results
| handle_errors.

Inductive target : Type :=
| Node (n : node)
| END.

#[export] Instance node_eq_dec : EqDecision node.
Proof. solve_decision. Defined.

Definition node_fn (n : node) : M run_store unit :=
  match n with
  | parse_code => _parse_code
  | route_to_agents => _route_to_agents
  | run_documenter => _run_documenter
  | collect_results => _collect_results
  | store_results => _store_results
  | handle_errors => _handle_errors
  end.

Definition entry_point : node := parse_code.

(** The calls of [add_edge], in the order of the source. *)
Definition edges : list (node * target) :=
  [ (parse_code, Node route_to_agents);
    (route_to_agents, Node run_documenter);
    (run_documenter, Node collect_results);
    (collect_results, Node store_results);
    (store_results, END);
    (handle_errors, END) ].

(** The call of [add_conditional_edges]: the routing function and the node
    each of its answers leads to. *)
Definition conditional_edges
  : list (node * ((AnalysisState -> string) * list (string * target))) :=
  [ (parse_code, (_should_continue,
                  [ ("continue", Node route_to_agents);
                    ("error", Node handle_errors) ])) ].

Fixpoint assoc {K V} `{EqDecision K} (k : K) (l : list (K * V)) : option V :=
  match l with
  | [] => None
  | (k', v) :: l' => if decide (k = k') then Some v else assoc k l'
  end.

(** Where the run goes after node [n] returned state [s].  The graph library
    is not part of the repository.  Its driver is modelled as the transition
    rules of the spec (4.3) read the graph: a node with conditional edges is
    left along the branch its routing function picks, so that after
    [parse_code] the run goes to [handle_errors] instead of
    [route_to_agents] when the guard answers [error] (the plain edge from
    [parse_code] to [route_to_agents], which the source declares as well,
    is the branch taken on [continue]); any other node is left along its
    plain edge. *)
Definition next (n : node) (s : AnalysisState) : option target :=
  match assoc n conditional_edges with
  | Some (path, path_map) => assoc (path s) path_map
  | None => assoc n edges
  end.

(** The number of steps after which the graph library gives up. *)
Definition recursion_limit : nat := 25.

(** The driver: the nodes are run one after the other on the same state.
    It returns the nodes visited, oldest first. *)
Fixpoint run (fuel : nat) (n : node) (visited : list node) (s : run_store)
  : list node * run_store * outcome unit :=
  match fuel with
  | O => (visited, s, Exc "Recursion limit of 25 reached without hitting a stop condition.")
  | S fuel' =>
      match node_fn n s with
      | (s', Val _) =>
          match next n s'.1 with
          | Some (Node n') => run fuel' n' (visited ++ [n])%list s'
          | Some END => ((visited ++ [n])%list, s', Val tt)
          | None => ((visited ++ [n])%list, s', Exc (key_error (_should_continue s'.1)))
          end
      | (s', Exc e) => ((visited ++ [n])%list, s', Exc e)
      | (s', Hang) => ((visited ++ [n])%list, s', Hang)
      end
  end.

(** [self.workflow.ainvoke(state, config)]: the state the last node
    returned. *)
Definition ainvoke (s : AnalysisState) : M Orchestrator AnalysisState :=
  fun o =>
    let '(_, (s', o'), r) := run recursion_limit entry_point [] (s, o) in
    (o', match r with
         | Val _ => Val s'
         | Exc e => Exc e
         | Hang => Hang
         end).

(** *** The facade *)

(** The state [run_analysis] builds. *)
Definition initial_state (sid : string) (pid : Z) (fs : list (gmap string string))
    (agents_config : option (gmap string bool)) (model tone started_at : string)
  : AnalysisState :=
  {| session_id := sid; project_id := pid; files := fs;
     parsed_elements := ∅; agent_outputs := ∅; current_agent := None;
     errors := []; progress := ∅;
     metadata := {[ "model" := PStr model;
                    "tone" := PStr tone;
                    "agents_config" := PDict (PBool <$> default ∅ agents_config);
                    "started_at" := PStr started_at ]} |}.

Definition session_key (sid : string) : string := "session:" +:+ sid.

(** [run_analysis] up to the start of the workflow: the status update, the
    new state, its registration in memory and in the cache. *)
Definition start_session (sid : string) (pid : Z) (fs : list (gmap string string))
    (agents_config : option (gmap string bool)) (model tone : string)
  : M Orchestrator AnalysisState :=
  do! db (UpdateSessionStatus sid "in_progress" None) in
  let! started_at := now in
  let st := initial_state sid pid fs agents_config model tone started_at in
  do! modify (fun o => set_active_sessions (<[sid := st]> (active_sessions o)) o) in
  do! cache_set (session_key sid) (PDict (to_dict st)) in
  ret st.

(** [run_analysis] after the workflow returned: the final status, the
    clean-up, the result. *)
Definition finish_session (sid : string) (result : AnalysisState)
  : M Orchestrator (gmap string pyval) :=
  do! db (UpdateSessionStatus sid "completed" None) in
  let! o := get in
  do! match active_sessions o !! sid with
      | Some _ => modify (fun o => set_active_sessions (delete sid (active_sessions o)) o)
      | None => raise (key_error sid)
      end in
  do! cache_delete (session_key sid) in
  ret (agent_outputs result).

(** The except clause of [run_analysis]. *)
Definition fail_session {A} (sid : string) (e : string) : M Orchestrator A :=
  do! db (UpdateSessionStatus sid "failed" (Some e)) in
  do! modify (fun o => set_active_sessions (delete sid (active_sessions o)) o) in
  do! cache_delete (session_key sid) in
  raise e.

(** [AgentOrchestrator.run_analysis] *)
Definition run_analysis (sid : string) (pid : Z) (fs : list (gmap string string))
    (agents_config : option (gmap string bool)) (model tone : string)
  : M Orchestrator (gmap string pyval) :=
  try_except
    (let! st := start_session sid pid fs agents_config model tone in
     let! result := ainvoke st in
     finish_session sid result)
    (fail_session sid).

(** [AgentOrchestrator.get_session_status] *)
Definition get_session_status (sid : string) : M Orchestrator (option pyval) :=
  let! o := get in
  match active_sessions o !! sid with
  | Some st =>
      ret (Some (PDict {[ "session_id" := PStr sid;
                          "status" := PStr "in_progress";
                          "current_agent" := py_opt_str (current_agent st);
                          "progress" := PDict (progress st);
                          "errors" := py_strs (errors st) ]}))
  | None =>
      let! cached_state := cache_get (session_key sid) in
      if truthy cached_state then
        let! agent := await (dict_get cached_state "current_agent" PNone) in
        let! prog := await (dict_get cached_state "progress" PNone) in
        let! errs := await (dict_get cached_state "errors" PNone) in
        ret (Some (PDict {[ "session_id" := PStr sid;
                            "status" := PStr "cached";
                            "current_agent" := agent;
                            "progress" := prog;
                            "errors" := errs ]}))
      else
        do! db (GetAnalysisSession sid) in
        ret (db_session sid)
  end.

(** *** What a node may change *)

(** [frame outs progs s s']: from [s] to [s'] the identity of the session,
    its files and its metadata are kept, [agent_outputs] changes only under
    the keys [outs], [progress] only under the keys [progs], and [errors]
    only grows at its end. *)
Definition frame (outs progs : list string) : relation AnalysisState :=
  fun s s' =>
    session_id s' = session_id s
    /\ project_id s' = project_id s
    /\ files s' = files s
    /\ metadata s' = metadata s
    /\ (forall k, k ∉ outs -> agent_outputs s' !! k = agent_outputs s !! k)
    /\ (forall k, k ∉ progs -> progress s' !! k = progress s !! k)
    /\ errors s `prefix_of` errors s'.

Definition on_state (R : relation AnalysisState) : relation run_store :=
  fun s s' => R s.1 s'.1.

Definition on_fst {S L} (R : relation S) : relation (S * L) :=
  fun a b => R a.1 b.1.

#[export] Instance frame_preorder outs progs : PreOrder (frame outs progs).
Proof.
  split.
  - intros s. by repeat split.
  - intros s1 s2 s3 (A1 & A2 & A3 & A4 & A5 & A6 & A7) (B1 & B2 & B3 & B4 & B5 & B6 & B7).
    repeat split; try congruence.
    + intros k Hk. rewrite B5, A5; auto.
    + intros k Hk. rewrite B6, A6; auto.
    + by etrans.
Qed.

#[export] Instance on_state_preorder R `{!PreOrder R} : PreOrder (on_state R).
Proof.
  split.
  - intros s. unfold on_state. reflexivity.
  - intros s1 s2 s3 H1 H2. unfold on_state in *. by etrans.
Qed.

#[export] Instance on_fst_preorder {S L} (R : relation S) `{!PreOrder R} :
  PreOrder (on_fst (L := L) R).
Proof.
  split.
  - intros s. unfold on_fst. reflexivity.
  - intros s1 s2 s3 H1 H2. unfold on_fst in *. by etrans.
Qed.

Section Lifting.

Context {S L : Type} (R : relation S) `{!PreOrder R}.

Lemma preserves_outer {A} (c : M S A) :
  preserves R c -> preserves (on_fst (L := L) R) (outer c).
Proof.
  intros Hc [s l]. unfold outer, on_fst; simpl. specialize (Hc s).
  by destruct (c s).
Qed.

Lemma preserves_local : preserves (on_fst (L := L) R) local.
Proof. intros [s l]. unfold on_fst; simpl. reflexivity. Qed.

Lemma preserves_set_local (f : L -> L) : preserves (on_fst R) (set_local f).
Proof. intros [s l]. unfold on_fst; simpl. reflexivity. Qed.

Lemma preserves_with_local {A} (l0 : L) (c : M (S * L) A) :
  preserves (on_fst R) c -> preserves R (with_local l0 c).
Proof.
  intros Hc s. unfold with_local. specialize (Hc (s, l0)). unfold on_fst in Hc.
  by destruct (c (s, l0)).
Qed.

Lemma returns_outer {A} (c : M S A) : returns c -> returns (outer (L := L) c).
Proof. intros Hc [s l]. unfold outer; simpl. specialize (Hc s). by destruct (c s). Qed.

Lemma returns_local : returns (local (S := S) (L := L)).
Proof. by intros [s l]. Qed.

Lemma returns_with_local {A} (l0 : L) (c : M (S * L) A) :
  returns c -> returns (with_local l0 c).
Proof.
  intros Hc s. unfold with_local. specialize (Hc (s, l0)). by destruct (c (s, l0)).
Qed.

End Lifting.

Section Frames.

Context (R : relation AnalysisState) `{!PreOrder R}.

Lemma preserves_assign f : (forall s, R s (f s)) -> preserves (on_state R) (assign f).
Proof. intros H s. apply H. Qed.

Lemma preserves_on_orchestrator {A} (c : M Orchestrator A) :
  preserves (on_state R) (on_orchestrator c).
Proof.
  intros s. unfold on_orchestrator, on_state. destruct (c s.2); simpl. reflexivity.
Qed.

End Frames.

Lemma preserves_state (R : relation run_store) `{!PreOrder R} : preserves R state.
Proof. intros s. simpl. reflexivity. Qed.

Lemma preserves_getitem {S V} (R : relation S) `{!PreOrder R} (d : gmap string V) k :
  preserves R (getitem d k).
Proof. unfold getitem. destruct (d !! k); [apply preserves_ret | apply preserves_raise]; apply _. Qed.

Lemma returns_getitem {S V} (d : gmap string V) k : returns (getitem (S := S) d k).
Proof. unfold getitem. by destruct (d !! k). Qed.

Lemma returns_state : returns state.
Proof. by intros s. Qed.

Lemma returns_assign f : returns (assign f).
Proof. by intros s. Qed.

Lemma returns_db c : returns (db c).
Proof. intros o. unfold db. by destruct (db_fault c). Qed.

Lemma returns_on_orchestrator {A} (c : M Orchestrator A) :
  returns c -> returns (on_orchestrator c).
Proof. intros Hc s. unfold on_orchestrator. specialize (Hc s.2). by destruct (c s.2). Qed.

Lemma returns_now : returns now.
Proof. by intros o. Qed.

(** Structural steps through a computation. *)
Ltac pres_step :=
  match goal with
  | |- PreOrder _ => apply _
  | |- forall _, _ => intro
  | |- preserves _ (bind _ _) => apply preserves_bind
  | |- preserves _ (try_except _ _) => apply preserves_try_except
  | |- preserves _ (for_each _ _) => apply preserves_for_each
  | |- preserves _ (with_local _ _) => apply preserves_with_local
  | |- preserves _ (outer _) => apply preserves_outer
  | |- preserves _ (ret _) => apply preserves_ret
  | |- preserves _ (raise _) => apply preserves_raise
  | |- preserves _ (await _) => apply preserves_await
  | |- preserves _ get => apply preserves_get
  | |- preserves _ state => apply preserves_state
  | |- preserves _ local => apply preserves_local
  | |- preserves _ (set_local _) => apply preserves_set_local
  | |- preserves _ (on_orchestrator _) => apply preserves_on_orchestrator
  | |- preserves _ (getitem _ _) => apply preserves_getitem
  | |- preserves _ (match ?x with _ => _ end) => destruct x
  | |- preserves _ (let '(_, _) := ?x in _) => destruct x
  end.

Ltac returns_step :=
  match goal with
  | |- forall _, _ => intro
  | |- returns (bind _ _) => apply returns_bind
  | |- returns (try_except _ _) => apply returns_try_except
  | |- returns (for_each _ _) => apply returns_for_each
  | |- returns (with_local _ _) => apply returns_with_local
  | |- returns (outer _) => apply returns_outer
  | |- returns (ret _) => apply returns_ret
  | |- returns (raise _) => apply returns_raise
  | |- returns get => apply returns_get
  | |- returns (modify _) => apply returns_modify
  | |- returns state => apply returns_state
  | |- returns local => apply returns_local
  | |- returns (assign _) => apply returns_assign
  | |- returns (db _) => apply returns_db
  | |- returns now => apply returns_now
  | |- returns (on_orchestrator _) => apply returns_on_orchestrator
  | |- returns (getitem _ _) => apply returns_getitem
  | |- returns (match ?x with _ => _ end) => destruct x
  | |- returns (let '(_, _) := ?x in _) => destruct x
  end.

(** The assignments the node functions make, against the frame. *)
Lemma frame_set_current_agent outs progs v s :
  frame outs progs s (set_current_agent v s).
Proof. by repeat split. Qed.

Lemma frame_set_parsed_elements outs progs v s :
  frame outs progs s (set_parsed_elements v s).
Proof. by repeat split. Qed.

Lemma frame_append_error outs progs msg s :
  frame outs progs s (set_errors (errors s ++ [msg]) s).
Proof. repeat split; try done. simpl. by apply prefix_app_r. Qed.

Lemma frame_set_progress outs progs key v s :
  key ∈ progs -> frame outs progs s (set_progress (<[key := v]> (progress s)) s).
Proof.
  intros Hk. repeat split; try done. simpl. intros k Hn.
  apply lookup_insert_ne. intros ->. done.
Qed.

Lemma frame_set_agent_outputs outs progs key v s :
  key ∈ outs -> frame outs progs s (set_agent_outputs (<[key := v]> (agent_outputs s)) s).
Proof.
  intros Hk. repeat split; try done. simpl. intros k Hn.
  apply lookup_insert_ne. intros ->. done.
Qed.

Lemma preserves_append_error outs progs msg :
  preserves (on_state (frame outs progs)) (append_error msg).
Proof. apply preserves_assign. intros s. apply frame_append_error. Qed.

Lemma preserves_set_progress_item outs progs key v :
  key ∈ progs -> preserves (on_state (frame outs progs)) (set_progress_item key v).
Proof. intros Hk. apply preserves_assign. intros s. by apply frame_set_progress. Qed.

Lemma preserves_set_progress_field outs progs key field v :
  key ∈ progs -> preserves (on_state (frame outs progs)) (set_progress_field key field v).
Proof.
  intros Hk. unfold set_progress_field.
  repeat pres_step; by apply preserves_set_progress_item.
Qed.

Lemma returns_set_progress_field key field v : returns (set_progress_field key field v).
Proof.
  unfold set_progress_field, set_progress_item. repeat returns_step.
Qed.

(** Membership of a literal key in a literal list of keys. *)
Ltac key_solver :=
  match goal with
  | |- _ ∉ _ =>
      let H := fresh in
      intros H;
      repeat (apply elem_of_cons in H as [H|H]; [discriminate H|]);
      by apply elem_of_nil in H
  | |- _ ∈ _ => by repeat first [ apply list_elem_of_here | apply list_elem_of_further ]
  end.

(** The keys of [agent_outputs] and of [progress] each node writes. *)
Definition output_keys (n : node) : list string :=
  match n with
  | run_documenter => ["documenter"]
  | collect_results => ["aggregated"]
  | _ => []
  end.

Definition progress_keys (n : node) : list string :=
  match n with
  | parse_code => ["parsing"]
  | route_to_agents => ["routing"]
  | run_documenter => ["documenter"]
  | collect_results => ["collection"]
  | store_results => ["storage"]
  | handle_errors => ["error_handling"]
  end.

Ltac frame_leaf :=
  first
    [ apply preserves_append_error
    | apply preserves_set_progress_item; key_solver
    | apply preserves_set_progress_field; key_solver
    | apply preserves_assign; intro;
      first [ apply frame_set_current_agent
            | apply frame_set_parsed_elements
            | apply frame_set_agent_outputs; key_solver ] ].

Ltac frame_tac := repeat first [ pres_step | frame_leaf ].

Lemma node_frame n :
  preserves (on_state (frame (output_keys n) (progress_keys n))) (node_fn n).
Proof.
  destruct n; simpl.
  - unfold _parse_code, parse_one. frame_tac.
  - unfold _route_to_agents. frame_tac.
  - unfold _run_documenter. frame_tac.
  - unfold _collect_results. frame_tac.
  - unfold _store_results. frame_tac.
  - unfold _handle_errors. frame_tac.
Qed.

(** No node function lets an exception out. *)
Lemma node_no_raise n : no_raise (node_fn n).
Proof.
  destruct n; simpl; apply no_raise_try_except; intros e;
    first [ apply no_raise_ret | apply no_raise_modify ].
Qed.

Lemma returns_append_error msg : returns (append_error msg).
Proof. apply returns_assign. Qed.

Lemma returns_set_progress_item key v : returns (set_progress_item key v).
Proof. apply returns_assign. Qed.

Ltac returns_leaf :=
  first [ apply returns_append_error
        | apply returns_set_progress_item
        | apply returns_set_progress_field
        | apply returns_modify ].

Ltac returns_tac := repeat first [ returns_step | returns_leaf ].


Lemma returns_await_dict_keys {S} x : returns (await (S := S) (dict_keys x)).
Proof. apply returns_await. by destruct x. Qed.

(** Routing, collecting, storing and error handling always come back. *)
Lemma _route_to_agents_returns : returns _route_to_agents.
Proof. unfold _route_to_agents. returns_tac. apply returns_await_dict_keys. Qed.

Lemma _collect_results_returns : returns _collect_results.
Proof. unfold _collect_results. returns_tac. Qed.

Lemma _store_results_returns : returns _store_results.
Proof. unfold _store_results. returns_tac. Qed.




(** *** Stage outputs and progress markers *)

(** The progress marker of [name] says [completed]. *)
Definition stage_completed (s : AnalysisState) (name : string) : bool :=
  match progress s !! name with
  | Some (PDict d) =>
      match d !! "status" with
      | Some (PStr status) => String.eqb status "completed"
      | _ => false
      end
  | _ => false
  end.




(** [state.progress[key][field] = v] on an entry that is a dictionary. *)
Lemma set_progress_field_dict key field v d s o :
  progress s !! key = Some (PDict d) ->
  set_progress_field key field v (s, o)
  = ((set_progress (<[key := PDict (<[field := v]> d)]> (progress s)) s, o), Val tt).
Proof.
  intros H. unfold set_progress_field, bind, state, getitem; simpl. by rewrite H.
Qed.

(** The documenter node, by the answer of the stage: skipped, completed with
    its output recorded, failed with the fault recorded, or suspended. *)
Definition documenter_enabled (s : AnalysisState) : outcome bool :=
  match dict_get (agents_config_of s) "documenter" (PBool true) with
  | Val v => Val (truthy v)
  | Exc e => Exc e
  | Hang => Hang
  end.

Definition started (s : AnalysisState) : AnalysisState :=
  set_progress (<["documenter" := PDict {[ "status" := PStr "started" ]}]> (progress s))
    (set_current_agent (Some "documenter") s).

Definition stage_call (s : AnalysisState) : outcome pyval :=
  analyze (parsed_elements s) (project_id s)
    (default PNone (metadata s !! "model")) (default PNone (metadata s !! "tone")).

Lemma _run_documenter_cases s o :
  _run_documenter (s, o) =
    match documenter_enabled s with
    | Val false => ((s, o), Val tt)
    | Val true =>
        match stage_call s with
        | Val results =>
            ((set_progress
                (<["documenter" := PDict (<["status" := PStr "completed"]>
                                            {[ "status" := PStr "started" ]})]>
                   (progress (started s)))
                (set_agent_outputs (<["documenter" := results]> (agent_outputs s))
                   (started s)), o), Val tt)
        | Exc e =>
            ((set_errors (errors s ++ ["Documenter agent failed: " +:+ e]) (started s), o),
             Val tt)
        | Hang => ((started s, o), Hang)
        end
    | Exc e => ((set_errors (errors s ++ ["Documenter agent failed: " +:+ e]) s, o), Val tt)
    | Hang => ((s, o), Hang)
    end.
Proof.
  unfold _run_documenter, documenter_enabled, stage_call, try_except, bind, state, await;
    simpl.
  destruct (dict_get (agents_config_of s) "documenter" (PBool true)) as [v|e|]; simpl;
    try reflexivity.
  destruct (truthy v); simpl; [|reflexivity].
  destruct (analyze _ _ _ _) as [results|e|]; simpl; try reflexivity.
  unfold set_progress_field, bind, state, getitem, set_progress_item, assign, modify; simpl.
  rewrite lookup_insert_eq. reflexivity.
Qed.


(** *** The states of a run *)

(** [enters n s]: a run of the workflow, started by [run_analysis], is about
    to call node [n] on store [s]. *)
Inductive enters : node -> run_store -> Prop :=
| enters_entry sid pid fs agents_config model tone started_at o :
    enters entry_point
      (initial_state sid pid fs agents_config model tone started_at, o)
| enters_next n s s' n' :
    enters n s ->
    node_fn n s = (s', Val tt) ->
    next n s'.1 = Some (Node n') ->
    enters n' s'.

(** The session states a run goes through: the state a node is called on,
    the state it leaves, whether it returned or stays suspended, and the
    state in which the documenter node awaits its stage. *)
Definition reachable (st : AnalysisState) : Prop :=
  exists n s,
    enters n s
    /\ (st = s.1
        \/ st = (node_fn n s).1.1
        \/ (n = run_documenter /\ documenter_enabled s.1 = Val true
            /\ st = started s.1)).







(** *** Nodes that leave the orchestrator alone *)

Definition orchestrator_kept : relation run_store := fun s s' => s'.2 = s.2.

#[export] Instance orchestrator_kept_preorder : PreOrder orchestrator_kept.
Proof.
  split.
  - by intros s.
  - intros s1 s2 s3 H1 H2. unfold orchestrator_kept in *. congruence.
Qed.

Lemma assign_keeps_orchestrator f : preserves orchestrator_kept (assign f).
Proof. by intros s. Qed.

Lemma set_progress_field_keeps_orchestrator key field v :
  preserves orchestrator_kept (set_progress_field key field v).
Proof.
  unfold set_progress_field, set_progress_item.
  repeat first [ pres_step | apply assign_keeps_orchestrator ].
Qed.

Ltac kept_tac :=
  repeat first [ pres_step
               | apply assign_keeps_orchestrator
               | apply set_progress_field_keeps_orchestrator ].

(** Parsing, routing and the documenter node call neither the durable store
    nor the cache, and do not read the clock. *)
Lemma _parse_code_keeps_orchestrator : preserves orchestrator_kept _parse_code.
Proof. unfold _parse_code, parse_one, append_error, set_progress_item. kept_tac. Qed.

Lemma _route_to_agents_keeps_orchestrator : preserves orchestrator_kept _route_to_agents.
Proof. unfold _route_to_agents, append_error, set_progress_item. kept_tac. Qed.

Lemma _run_documenter_keeps_orchestrator : preserves orchestrator_kept _run_documenter.
Proof. unfold _run_documenter, append_error, set_progress_item. kept_tac. Qed.

(** *** Parsing *)

(** What the loop of [_parse_code] makes of one file: its elements are
    recorded, it is passed over (neither PHP nor JavaScript), it is rejected
    with a warning, it cannot even be named (the whole stage fails), or the
    parser never answers. *)
Inductive verdict : Type :=
| Parsed (path : string) (elements : pyval)
| Ignored
| Rejected (warning : string)
| Unreadable (e : string)
| Pending.

Definition parse_warning (path e : string) : string :=
  "Parse error in " +:+ path +:+ ": " +:+ e.

Definition parser_verdict (path : string) (o : outcome pyval) : verdict :=
  match o with
  | Val elements => Parsed path elements
  | Exc e => Rejected (parse_warning path e)
  | Hang => Pending
  end.

Definition file_verdict (file_data : gmap string string) : verdict :=
  match file_data !! "path" with
  | None => Unreadable (key_error "path")
  | Some path =>
      match file_data !! "content" with
      | None => Rejected (parse_warning path (key_error "content"))
      | Some content =>
          if endswith path ".php" then
            parser_verdict path (parse_php_file content path)
          else if endswith path ".js" || endswith path ".vue" then
            parser_verdict path (parse_js_file content path)
          else Ignored
      end
  end.

(** The files that fail on their own at worst. *)
Definition tolerable (file_data : gmap string string) : bool :=
  match file_verdict file_data with
  | Unreadable _ | Pending => false
  | _ => true
  end.

(** The warnings of a list of files, in order. *)
Definition warnings (fs : list (gmap string string)) : list string :=
  omap (fun f => match file_verdict f with
                 | Rejected w => Some w
                 | _ => None
                 end) fs.

Definition processed (i : nat) (d : gmap string pyval) (s : AnalysisState)
  : AnalysisState :=
  set_progress
    (<["parsing" := PDict (<["files_processed" := PInt (Z.of_nat i + 1)]> d)]> (progress s)) s.

Lemma parse_one_verdict i file_data s o pe d :
  progress s !! "parsing" = Some (PDict d) ->
  parse_one i file_data ((s, o), pe) =
    match file_verdict file_data with
    | Parsed path elements => (((processed i d s, o), <[path := elements]> pe), Val tt)
    | Ignored => (((processed i d s, o), pe), Val tt)
    | Rejected w => (((set_errors (errors s ++ [w]) s, o), pe), Val tt)
    | Unreadable e => (((s, o), pe), Exc e)
    | Pending => (((s, o), pe), Hang)
    end.
Proof.
  intros Hd. unfold parse_one, file_verdict, try_except, bind, getitem; simpl.
  destruct (file_data !! "path") as [path|]; simpl; [|reflexivity].
  destruct (file_data !! "content") as [content|]; simpl; [|reflexivity].
  assert (Hset : forall pe' : gmap string pyval,
    outer (set_progress_field "parsing" "files_processed" (PInt (Z.of_nat i + 1)))
      ((s, o), pe') = (((processed i d s, o), pe'), Val tt)).
  { intros pe'. unfold outer; simpl. by rewrite (set_progress_field_dict _ _ _ d). }
  destruct (endswith path ".php"); simpl.
  { destruct (parse_php_file content path); simpl; try reflexivity. by rewrite Hset. }
  destruct (endswith path ".js" || endswith path ".vue"); simpl.
  { destruct (parse_js_file content path); simpl; try reflexivity. by rewrite Hset. }
  by rewrite Hset.
Qed.

(** The loop over tolerable files returns; it appends their warnings and
    leaves the [status] entry of the parsing marker alone. *)
Lemma parse_loop_tolerable fs : forall (g : nat -> nat) s o pe d,
  progress s !! "parsing" = Some (PDict d) ->
  forallb tolerable fs = true ->
  exists s' pe' d',
    for_each (S := run_store * gmap string pyval)
      (imap (fun i f => (g i, f)) fs) (fun '(i, f) => parse_one i f) ((s, o), pe)
    = (((s', o), pe'), Val tt)
    /\ errors s' = (errors s ++ warnings fs)%list
    /\ progress s' !! "parsing" = Some (PDict d')
    /\ d' !! "status" = d !! "status".
Proof.
  induction fs as [|f fs IH]; intros g s o pe d Hd Hfs; simpl.
  - exists s, pe, d. by rewrite app_nil_r.
  - apply andb_true_iff in Hfs as [Hf Hfs]. unfold bind.
    rewrite (parse_one_verdict _ _ _ _ _ d Hd).
    unfold tolerable in Hf. unfold warnings; simpl. fold (warnings fs).
    destruct (file_verdict f) as [path elements| |w|e|]; try discriminate.
    + destruct (IH (g ∘ S) (processed (g 0%nat) d s) o (<[path := elements]> pe)
                  (<["files_processed" := PInt (Z.of_nat (g 0%nat) + 1)]> d))
        as (s' & pe' & d' & Hrun & He & Hp & Hst); [apply lookup_insert_eq|done|].
      exists s', pe', d'. repeat split; try done.
      rewrite Hst. by apply lookup_insert_ne.
    + destruct (IH (g ∘ S) (processed (g 0%nat) d s) o pe
                  (<["files_processed" := PInt (Z.of_nat (g 0%nat) + 1)]> d))
        as (s' & pe' & d' & Hrun & He & Hp & Hst); [apply lookup_insert_eq|done|].
      exists s', pe', d'. repeat split; try done.
      rewrite Hst. by apply lookup_insert_ne.
    + destruct (IH (g ∘ S) (set_errors (errors s ++ [w]) s) o pe d)
        as (s' & pe' & d' & Hrun & He & Hp & Hst); [done..|].
      exists s', pe', d'. repeat split; try done.
      rewrite He. simpl. by rewrite <- app_assoc.
Qed.

(** [_parse_code] on tolerable files: it returns, the warnings are appended
    to [errors], and the parsing marker says [completed]. *)
Lemma _parse_code_tolerable s o :
  forallb tolerable (files s) = true ->
  exists s',
    _parse_code (s, o) = ((s', o), Val tt)
    /\ errors s' = (errors s ++ warnings (files s))%list
    /\ stage_completed s' "parsing" = true.
Proof.
  intros Hfs.
  destruct (parse_loop_tolerable (files s) id
              (set_progress (<["parsing" := PDict {[ "status" := PStr "started";
                                                    "files_processed" := PInt 0 ]}]>
                               (progress s))
                 (set_current_agent (Some "parser") s)) o ∅
              {[ "status" := PStr "started"; "files_processed" := PInt 0 ]})
    as (s' & pe' & d' & Hrun & He & Hp & Hst); [apply lookup_insert_eq|done|].
  eexists. unfold _parse_code, try_except, bind, with_local, state; simpl.
  match goal with
  | |- context [@for_each ?S ?A ?l ?b ?st] =>
      change (@for_each S A l b st = (s', o, pe', Val tt)) in Hrun
  end.
  rewrite Hrun; simpl.
  unfold outer; simpl. rewrite (set_progress_field_dict _ _ _ d'); [|done]. simpl.
  split; [reflexivity|]. split; [done|].
  unfold stage_completed; simpl. by rewrite !lookup_insert_eq.
Qed.

(** *** The path of a run *)

Lemma next_parse_code st :
  next parse_code st
  = Some (Node (match errors st with [] => route_to_agents | _ => handle_errors end)).
Proof. unfold next; simpl. unfold _should_continue. by destruct (errors st). Qed.

Lemma run_returned fuel n visited s s' :
  node_fn n s = (s', Val tt) ->
  run (S fuel) n visited s =
    match next n s'.1 with
    | Some (Node n') => run fuel n' (visited ++ [n])%list s'
    | Some END => ((visited ++ [n])%list, s', Val tt)
    | None => ((visited ++ [n])%list, s', Exc (key_error (_should_continue s'.1)))
    end.
Proof. intros H. simpl. by rewrite H. Qed.

Lemma run_suspended fuel n visited s s' :
  node_fn n s = (s', Hang) ->
  run (S fuel) n visited s = ((visited ++ [n])%list, s', Hang).
Proof. intros H. simpl. by rewrite H. Qed.

(** Routing records no error when the configuration is a dictionary. *)
Lemma _route_to_agents_errors s o d :
  agents_config_of s = PDict d ->
  errors (_route_to_agents (s, o)).1.1 = errors s.
Proof.
  intros Hd.
  unfold _route_to_agents, try_except, bind, state, assign, set_progress_item, modify;
    simpl.
  unfold agents_config_of in *; simpl. rewrite Hd.
  destruct (truthy (PDict d)); simpl;
    unfold set_progress_field, bind, state, getitem, set_progress_item, assign, modify;
    simpl; rewrite lookup_insert_eq; simpl; rewrite lookup_insert_eq; reflexivity.
Qed.

(** A session whose files all parse reaches the documenter node through
    parsing and routing, with nothing of the stage in its state yet. *)
Lemma run_to_documenter fuel s o d :
  forallb tolerable (files s) = true ->
  errors s = [] -> warnings (files s) = [] ->
  agents_config_of s = PDict d ->
  exists s2,
    run (S (S fuel)) parse_code [] (s, o)
    = run fuel run_documenter [parse_code; route_to_agents] (s2, o)
    /\ metadata s2 = metadata s
    /\ (forall k, agent_outputs s2 !! k = agent_outputs s !! k)
    /\ progress s2 !! "documenter" = progress s !! "documenter"
    /\ errors s2 = [].
Proof.
  intros Hfs He Hw Hcfg.
  destruct (_parse_code_tolerable s o Hfs) as (s1 & Hparse & He1 & _).
  rewrite He, Hw in He1; simpl in He1.
  pose proof (node_frame parse_code (s, o)) as F1.
  simpl in F1. rewrite Hparse in F1. destruct F1 as (_ & _ & _ & M1 & O1 & P1 & _).
  assert (Hcfg1 : agents_config_of s1 = PDict d)
    by (unfold agents_config_of in *; simpl in M1; by rewrite M1).
  pose proof (_route_to_agents_errors s1 o d Hcfg1) as He2.
  pose proof (returned _route_to_agents (s1, o)
                (node_no_raise route_to_agents) _route_to_agents_returns) as Hroute.
  pose proof (_route_to_agents_keeps_orchestrator (s1, o)) as K2.
  pose proof (node_frame route_to_agents (s1, o)) as F2. simpl in F2.
  destruct (_route_to_agents (s1, o)) as [[s2 o2] r2] eqn:E2.
  unfold orchestrator_kept in K2; simpl in K2, Hroute, He2. subst o2.
  injection Hroute as ->.
  destruct F2 as (_ & _ & _ & M2 & O2 & P2 & _); simpl in M1, O1, P1, M2, O2, P2.
  exists s2. split; [|split; [congruence|split; [|split; [|congruence]]]].
  - rewrite (run_returned _ parse_code [] (s, o) (s1, o) Hparse).
    rewrite next_parse_code. cbn [fst]. rewrite He1.
    rewrite (run_returned _ route_to_agents _ (s1, o) (s2, o) E2). reflexivity.
  - intros k. rewrite O2, O1; [done|key_solver..].
  - rewrite P2, P1; [done|key_solver..].
Qed.

(** Whether the documenter runs, by the configuration [run_analysis] got. *)
Definition documenter_configured (agents_config : option (gmap string bool)) : bool :=
  default true (default ∅ agents_config !! "documenter").

Lemma documenter_enabled_configured s sid pid fs agents_config model tone started_at :
  metadata s = metadata (initial_state sid pid fs agents_config model tone started_at) ->
  documenter_enabled s = Val (documenter_configured agents_config).
Proof.
  intros Hm. unfold documenter_enabled, agents_config_of, documenter_configured.
  rewrite Hm; simpl.
  rewrite lookup_insert_ne, lookup_insert_ne, lookup_insert_eq by done. simpl.
  rewrite lookup_fmap. by destruct (default ∅ agents_config !! "documenter") as [[]|].
Qed.

(** From the documenter node on: the run goes through collecting and
    storing to the end, whatever the stage answered, if it answered. *)
Lemma run_from_documenter fuel visited s o s3 :
  _run_documenter (s, o) = ((s3, o), Val tt) ->
  exists s5 o5,
    run (S (S (S fuel))) run_documenter visited (s, o)
    = ((visited ++ [run_documenter; collect_results; store_results])%list, (s5, o5), Val tt)
    /\ errors s3 `prefix_of` errors s5
    /\ agent_outputs s5 !! "documenter" = agent_outputs s3 !! "documenter"
    /\ progress s5 !! "documenter" = progress s3 !! "documenter".
Proof.
  intros Hdoc.
  pose proof (returned _collect_results (s3, o)
                (node_no_raise collect_results) _collect_results_returns) as Hcol.
  pose proof (node_frame collect_results (s3, o)) as F4. simpl in F4.
  destruct (_collect_results (s3, o)) as [[s4 o4] r4] eqn:E4.
  simpl in Hcol. injection Hcol as ->.
  pose proof (returned _store_results (s4, o4)
                (node_no_raise store_results) _store_results_returns) as Hsto.
  pose proof (node_frame store_results (s4, o4)) as F5. simpl in F5.
  destruct (_store_results (s4, o4)) as [[s5 o5] r5] eqn:E5.
  simpl in Hsto. injection Hsto as ->.
  destruct F4 as (_ & _ & _ & _ & O4 & P4 & X4).
  destruct F5 as (_ & _ & _ & _ & O5 & P5 & X5).
  simpl in O4, P4, X4, O5, P5, X5.
  exists s5, o5. repeat split.
  - rewrite (run_returned _ run_documenter _ (s, o) (s3, o) Hdoc).
    change (next run_documenter (s3, o).1) with (Some (Node collect_results)).
    cbv beta match.
    rewrite (run_returned _ collect_results _ (s3, o) (s4, o4) E4).
    change (next collect_results (s4, o4).1) with (Some (Node store_results)).
    cbv beta match.
    rewrite (run_returned _ store_results _ (s4, o4) (s5, o5) E5).
    change (next store_results (s5, o5).1) with (Some END).
    cbv beta match.
    by rewrite <- !app_assoc.
  - by etrans.
  - rewrite O5, O4; [done|key_solver..].
  - rewrite P5, P4; [done|key_solver..].
Qed.

(** C7. No node function lets an exception out, whatever its collaborators
    do.  When the documenter stage raises an exception, in a session whose
    files all parse and whose configuration enables the stage, the run does
    not abort: it goes on through collecting and storing and ends normally;
    the fault is recorded in [errors], and the stage is left without an
    output and without a [completed] marker. *)
Theorem stage_fault_absorbed sid pid fs agents_config model tone started_at o e :
  (forall pe pid' m t, analyze pe pid' m t = Exc e) ->
  forallb tolerable fs = true ->
  warnings fs = [] ->
  documenter_configured agents_config = true ->
  (forall n s e', (node_fn n s).2 <> Exc e')
  /\ exists s' o',
    run recursion_limit entry_point []
      (initial_state sid pid fs agents_config model tone started_at, o)
    = ([parse_code; route_to_agents; run_documenter; collect_results; store_results],
       (s', o'), Val tt)
    /\ ("Documenter agent failed: " +:+ e) ∈ errors s'
    /\ agent_outputs s' !! "documenter" = None
    /\ stage_completed s' "documenter" = false.
Proof.
  intros Hstage Hfs Hw Hcfg.
  set (s0 := initial_state sid pid fs agents_config model tone started_at).
  destruct (run_to_documenter 23 s0 o (PBool <$> default ∅ agents_config)
              Hfs eq_refl Hw eq_refl) as (s2 & Hrun & M2 & O2 & P2 & E2).
  assert (Hdoc : _run_documenter (s2, o)
                 = ((set_errors (errors s2 ++ ["Documenter agent failed: " +:+ e])
                       (started s2), o), Val tt)).
  { rewrite _run_documenter_cases.
    rewrite (documenter_enabled_configured _ _ _ _ _ _ _ _ M2), Hcfg.
    unfold stage_call. by rewrite Hstage. }
  destruct (run_from_documenter 20 [parse_code; route_to_agents] s2 o _ Hdoc)
    as (s5 & o5 & Hrun' & X & O5 & P5).
  split; [intros n s; apply node_no_raise|].
  exists s5, o5. split; [|split; [|split]].
  - change recursion_limit with (S (S 23)). unfold entry_point.
    rewrite Hrun. exact Hrun'.
  - destruct X as [rest ->]. simpl.
    apply elem_of_app. left. apply elem_of_app. right. by left.
  - rewrite O5. simpl. by rewrite O2.
  - unfold stage_completed. rewrite P5. simpl. by rewrite lookup_insert_eq.
Qed.


(** *** Registration and retirement *)

Definition registered (sid : string) (st : AnalysisState) (o : Orchestrator)
  : Orchestrator :=
  {| active_sessions := <[sid := st]> (active_sessions o);
     cache := <[session_key sid := PDict (to_dict st)]> (cache o);
     calls := calls o ++ [UpdateSessionStatus sid "in_progress" None;
                          CacheSet (session_key sid) (PDict (to_dict st))];
     clock_reads := S (clock_reads o) |}.

Lemma start_session_registers sid pid fs agents_config model tone o :
  db_fault (UpdateSessionStatus sid "in_progress" None) = None ->
  let st := initial_state sid pid fs agents_config model tone (utcnow (clock_reads o)) in
  start_session sid pid fs agents_config model tone o = (registered sid st o, Val st).
Proof.
  intros Hdb st. unfold start_session, bind, db, now, cache_set, modify, ret; simpl.
  rewrite Hdb; simpl. unfold registered, log, set_cache, set_active_sessions, tick; simpl.
  by rewrite <- app_assoc.
Qed.

Lemma status_writes_app sid cs1 cs2 :
  status_writes sid (cs1 ++ cs2) = (status_writes sid cs1 ++ status_writes sid cs2)%list.
Proof. unfold status_writes. apply omap_app. Qed.


(** C5 (amended). When the documenter stage never returns, in a session
    whose files all parse and whose configuration enables the stage, the run
    stays suspended in the documenter node and [run_analysis] with it: no
    error is appended, the only status written is [in_progress], and the
    session stays registered. *)
Theorem wedged_stage_suspends_session sid pid fs agents_config model tone o :
  (forall pe pid' m t, analyze pe pid' m t = Hang) ->
  forallb tolerable fs = true ->
  warnings fs = [] ->
  documenter_configured agents_config = true ->
  db_fault (UpdateSessionStatus sid "in_progress" None) = None ->
  exists st s' o',
    start_session sid pid fs agents_config model tone o = (o', Val st)
    /\ run recursion_limit entry_point [] (st, o')
       = ([parse_code; route_to_agents; run_documenter], (s', o'), Hang)
    /\ errors s' = []
    /\ run_analysis sid pid fs agents_config model tone o = (o', Hang)
    /\ status_writes sid (calls o') = (status_writes sid (calls o) ++ ["in_progress"])%list
    /\ is_Some (active_sessions o' !! sid).
Proof.
  intros Hstage Hfs Hw Hcfg Hdb.
  set (st := initial_state sid pid fs agents_config model tone (utcnow (clock_reads o))).
  set (o1 := registered sid st o).
  pose proof (start_session_registers sid pid fs agents_config model tone o Hdb) as Hstart.
  simpl in Hstart. fold st o1 in Hstart.
  destruct (run_to_documenter 23 st o1 (PBool <$> default ∅ agents_config)
              Hfs eq_refl Hw eq_refl) as (s2 & Hrun & M2 & O2 & P2 & E2).
  assert (Hdoc : _run_documenter (s2, o1) = ((started s2, o1), Hang)).
  { rewrite _run_documenter_cases.
    rewrite (documenter_enabled_configured _ _ _ _ _ _ _ _ M2), Hcfg.
    unfold stage_call. by rewrite Hstage. }
  assert (Hgraph : run recursion_limit entry_point [] (st, o1)
                   = ([parse_code; route_to_agents; run_documenter], (started s2, o1), Hang)).
  { change recursion_limit with (S (S 23)). unfold entry_point. rewrite Hrun.
    by rewrite (run_suspended 22 run_documenter _ (s2, o1) _ Hdoc). }
  exists st, (started s2), o1. repeat split; try done.
  - unfold run_analysis, try_except, bind. rewrite Hstart.
    unfold ainvoke. by rewrite Hgraph.
  - unfold o1; simpl. rewrite status_writes_app. f_equal.
    unfold status_writes; simpl. by rewrite String.eqb_refl.
  - unfold o1; simpl. rewrite lookup_insert_eq. by eexists.
Qed.

(** Error handling on a state that has errors: one call on the durable
    store, which marks the session failed. *)
Lemma _handle_errors_marks_failed s o :
  errors s <> [] ->
  db_fault (UpdateSessionStatus (session_id s) "failed"
              (Some (String.concat "; " (errors s)))) = None ->
  exists s',
    _handle_errors (s, o)
    = ((s', log (UpdateSessionStatus (session_id s) "failed"
                   (Some (String.concat "; " (errors s)))) o), Val tt).
Proof.
  intros He Hdb.
  unfold _handle_errors, try_except, bind, state, assign, set_progress_item, modify; simpl.
  set (c := UpdateSessionStatus _ _ _) in *.
  destruct (errors s) as [|e es]; [done|].
  unfold on_orchestrator, db; simpl. rewrite Hdb; simpl.
  unfold set_progress_field, bind, state, getitem, set_progress_item, assign, modify; simpl.
  rewrite lookup_insert_eq. by eexists.
Qed.

(** Every session with a rejected file ends as the session of C3 does: with
    a sound durable store, [run_analysis] writes [in_progress], then
    [failed] from the error-handling node, then [completed]. *)
Lemma warned_session_is_marked_completed sid pid fs agents_config model tone o :
  (forall c, db_fault c = None) ->
  forallb tolerable fs = true ->
  warnings fs <> [] ->
  exists o' outputs,
    run_analysis sid pid fs agents_config model tone o = (o', Val outputs)
    /\ status_writes sid (calls o')
       = (status_writes sid (calls o) ++ ["in_progress"; "failed"; "completed"])%list.
Proof.
  intros Hdb Hfs Hw.
  set (st := initial_state sid pid fs agents_config model tone (utcnow (clock_reads o))).
  set (o1 := registered sid st o).
  pose proof (start_session_registers sid pid fs agents_config model tone o (Hdb _))
    as Hstart.
  simpl in Hstart. fold st o1 in Hstart.
  destruct (_parse_code_tolerable st o1 Hfs) as (s1 & Hparse & He1 & _).
  simpl in He1.
  pose proof (node_frame parse_code (st, o1)) as F1. simpl in F1. rewrite Hparse in F1.
  destruct F1 as (Hsid & _). simpl in Hsid.
  destruct (_handle_errors_marks_failed s1 o1) as (s2 & Hhandle);
    [by rewrite He1 | apply Hdb |].
  rewrite Hsid in Hhandle.
  set (o2 := log _ o1) in Hhandle.
  assert (Hgraph : run recursion_limit entry_point [] (st, o1)
                   = ([parse_code; handle_errors], (s2, o2), Val tt)).
  { change recursion_limit with (S (S 23)). unfold entry_point.
    rewrite (run_returned _ parse_code [] (st, o1) (s1, o1) Hparse).
    rewrite next_parse_code. cbn [fst]. rewrite He1.
    destruct (warnings fs) as [|w ws] eqn:Ew; [done|].
    rewrite (run_returned _ handle_errors _ (s1, o1) (s2, o2) Hhandle).
    reflexivity. }
  eexists _, _. split.
  - unfold run_analysis, try_except, bind. rewrite Hstart.
    unfold ainvoke. rewrite Hgraph.
    unfold finish_session, bind, db, get; simpl. rewrite Hdb; simpl.
    rewrite lookup_insert_eq. reflexivity.
  - simpl. rewrite !status_writes_app. rewrite <- !app_assoc. f_equal.
    unfold status_writes; simpl. by rewrite String.eqb_refl.
Qed.

(** *** Status lookup *)

(** The view of a session held in memory, and the view built from a cache
    entry. *)
Definition memory_view (sid : string) (st : AnalysisState) : pyval :=
  PDict {[ "session_id" := PStr sid;
           "status" := PStr "in_progress";
           "current_agent" := py_opt_str (current_agent st);
           "progress" := PDict (progress st);
           "errors" := py_strs (errors st) ]}.

Definition cached_view (sid : string) (st : AnalysisState) : pyval :=
  PDict {[ "session_id" := PStr sid;
           "status" := PStr "cached";
           "current_agent" := py_opt_str (current_agent st);
           "progress" := PDict (progress st);
           "errors" := py_strs (errors st) ]}.



(** The state in which the driver stops is one of the states of the run. *)
Lemma run_stops_in_reachable fuel : forall n visited s,
  enters n s -> reachable (run fuel n visited s).1.2.1.
Proof.
  induction fuel as [|fuel IH]; intros n visited s Hen; simpl.
  - exists n, s. split; [done | by left].
  - destruct (node_fn n s) as [s' [[]|e|]] eqn:Hn.
    + destruct (next n s'.1) as [[n'|]|] eqn:Hnext.
      * apply IH. by apply (enters_next n s s' n').
      * exists n, s. split; [done|right; left]. by rewrite Hn.
      * exists n, s. split; [done|right; left]. by rewrite Hn.
    + exists n, s. split; [done|right; left]. by rewrite Hn.
    + exists n, s. split; [done|right; left]. by rewrite Hn.
Qed.

(** A cache entry that tests false (an empty dictionary, say) is passed over:
    the lookup goes on to the durable store.  [run_analysis] stores no such
    entry. *)
Lemma get_session_status_skips_falsy_entry sid o v :
  active_sessions o !! sid = None ->
  cache o !! session_key sid = Some v ->
  truthy v = false ->
  db_fault (GetAnalysisSession sid) = None ->
  get_session_status sid o
  = (log (GetAnalysisSession sid) (log (CacheGet (session_key sid)) o),
     Val (db_session sid)).
Proof.
  intros Ha Hc Hv Hdb. unfold get_session_status, bind, get; simpl. rewrite Ha.
  unfold cache_get, db; simpl. rewrite Hc; simpl. rewrite Hv; simpl. by rewrite Hdb.
Qed.


(** *** Further properties of the workflow *)

(** What no step of a run changes: the identity of the session, its files
    and its metadata; [errors] only grows at its end. *)
Definition kept : relation AnalysisState :=
  fun s s' =>
    session_id s' = session_id s
    /\ project_id s' = project_id s
    /\ files s' = files s
    /\ metadata s' = metadata s
    /\ errors s `prefix_of` errors s'.

#[export] Instance kept_preorder : PreOrder kept.
Proof.
  split.
  - intros s. by repeat split.
  - intros s1 s2 s3 (A1 & A2 & A3 & A4 & A5) (B1 & B2 & B3 & B4 & B5).
    repeat split; try congruence. by etrans.
Qed.

Lemma frame_kept outs progs s s' : frame outs progs s s' -> kept s s'.
Proof. intros (A1 & A2 & A3 & A4 & _ & _ & A7). by repeat split. Qed.

(** X1. Whatever the collaborators answer, and wherever the driver stops, a
    run leaves the session id, the project id, the files and the metadata
    as they were, and the errors recorded before it are still there, in
    order, at the head of [errors]. *)
Theorem run_keeps_session fuel : forall n visited s,
  kept s.1 (run fuel n visited s).1.2.1.
Proof.
  induction fuel as [|fuel IH]; intros n visited s; simpl.
  - reflexivity.
  - pose proof (frame_kept _ _ _ _ (node_frame n s)) as Hk.
    destruct (node_fn n s) as [s' [[]|e|]]; simpl in *; try done.
    destruct (next n s'.1) as [[n'|]|]; simpl; try done.
    etrans; [exact Hk | apply IH].
Qed.

(** The registry and the cache, which no node touches. *)
Definition registry_kept : relation run_store :=
  fun s s' =>
    active_sessions s'.2 = active_sessions s.2 /\ cache s'.2 = cache s.2.

#[export] Instance registry_kept_preorder : PreOrder registry_kept.
Proof.
  split.
  - by intros s.
  - intros s1 s2 s3 [A1 A2] [B1 B2]. split; congruence.
Qed.

Lemma assign_keeps_registry f : preserves registry_kept (assign f).
Proof. by intros s. Qed.

Lemma db_keeps_registry c : preserves registry_kept (on_orchestrator (db c)).
Proof.
  intros s. unfold on_orchestrator, db. by destruct (db_fault c).
Qed.

Lemma now_keeps_registry : preserves registry_kept (on_orchestrator now).
Proof. by intros s. Qed.

Lemma set_progress_field_keeps_registry key field v :
  preserves registry_kept (set_progress_field key field v).
Proof.
  unfold set_progress_field, set_progress_item.
  repeat first [ pres_step | apply assign_keeps_registry ].
Qed.

Ltac registry_tac :=
  repeat first [ pres_step
               | apply assign_keeps_registry
               | apply set_progress_field_keeps_registry
               | apply db_keeps_registry
               | apply now_keeps_registry ].

Lemma node_keeps_registry n : preserves registry_kept (node_fn n).
Proof.
  destruct n; simpl.
  - unfold _parse_code, parse_one, append_error, set_progress_item. registry_tac.
  - unfold _route_to_agents, append_error, set_progress_item. registry_tac.
  - unfold _run_documenter, append_error, set_progress_item. registry_tac.
  - unfold _collect_results, append_error, set_progress_item. registry_tac.
  - unfold _store_results, append_error, set_progress_item. registry_tac.
  - unfold _handle_errors, append_error, set_progress_item. registry_tac.
Qed.

Lemma run_keeps_registry fuel : forall n visited s,
  registry_kept s (run fuel n visited s).1.2.
Proof.
  induction fuel as [|fuel IH]; intros n visited s; simpl.
  - reflexivity.
  - pose proof (node_keeps_registry n s) as Hk.
    destruct (node_fn n s) as [s' [[]|e|]]; simpl in *; try done.
    destruct (next n s'.1) as [[n'|]|]; simpl; try done.
    etrans; [exact Hk | apply IH].
Qed.

Lemma ainvoke_keeps_registry st o :
  active_sessions (ainvoke st o).1 = active_sessions o
  /\ cache (ainvoke st o).1 = cache o.
Proof.
  unfold ainvoke.
  pose proof (run_keeps_registry recursion_limit entry_point [] (st, o)) as Hk.
  destruct (run recursion_limit entry_point [] (st, o)) as [[visited [s' o']] r].
  exact Hk.
Qed.







(** The except clause when the store refuses the [failed] status too: the
    handler stops there. *)
Lemma fail_session_fault {A} sid e e' o :
  db_fault (UpdateSessionStatus sid "failed" (Some e)) = Some e' ->
  fail_session (A := A) sid e o = (o, Exc e').
Proof. intros Hdb. unfold fail_session, bind, db. by rewrite Hdb. Qed.


Lemma finish_session_fault sid result o e :
  db_fault (UpdateSessionStatus sid "completed" None) = Some e ->
  finish_session sid result o = (o, Exc e).
Proof. intros Hdb. unfold finish_session, bind, db. by rewrite Hdb. Qed.

Lemma start_session_fault sid pid fs agents_config model tone o e :
  db_fault (UpdateSessionStatus sid "in_progress" None) = Some e ->
  start_session sid pid fs agents_config model tone o = (o, Exc e).
Proof. intros Hdb. unfold start_session, bind, db. by rewrite Hdb. Qed.



(** X4. When the durable store takes the [in_progress] status and then
    refuses the [completed] and the [failed] ones, a call of [run_analysis]
    that comes back leaves its session behind: the exception that comes out
    is the refusal of the [failed] status, the id is still in the
    in-process registry, and the cache still holds the entry written at
    the start. *)
Theorem refused_status_leaves_session_registered sid pid fs agents_config model tone o :
  db_fault (UpdateSessionStatus sid "in_progress" None) = None ->
  is_Some (db_fault (UpdateSessionStatus sid "completed" None)) ->
  (forall e, is_Some (db_fault (UpdateSessionStatus sid "failed" (Some e)))) ->
  (run_analysis sid pid fs agents_config model tone o).2 <> Hang ->
  let st := initial_state sid pid fs agents_config model tone (utcnow (clock_reads o)) in
  let r := run_analysis sid pid fs agents_config model tone o in
  (exists e e', db_fault (UpdateSessionStatus sid "failed" (Some e)) = Some e'
                /\ r.2 = Exc e')
  /\ is_Some (active_sessions r.1 !! sid)
  /\ cache r.1 !! session_key sid = Some (PDict (to_dict st)).
Proof.
  intros Hin [e1 Hend] Hfail. unfold run_analysis, try_except, bind.
  pose proof (start_session_registers sid pid fs agents_config model tone o Hin) as Hstart.
  cbv zeta in Hstart. rewrite Hstart.
  set (st := initial_state sid pid fs agents_config model tone _).
  set (o1 := registered sid st o).
  destruct (ainvoke_keeps_registry st o1) as [KA KC].
  destruct (ainvoke st o1) as [o2 [result|e|]]; cbn [fst snd] in KA, KC.
  - rewrite (finish_session_fault _ _ _ _ Hend).
    destruct (Hfail e1) as [e2 He2]. rewrite (fail_session_fault _ _ _ _ He2).
    intros _; cbn. rewrite KA, KC. unfold o1; simpl. rewrite !lookup_insert_eq.
    split; [by exists e1, e2|]. split; [by eexists | done].
  - destruct (Hfail e) as [e2 He2]. rewrite (fail_session_fault _ _ _ _ He2).
    intros _; cbn. rewrite KA, KC. unfold o1; simpl. rewrite !lookup_insert_eq.
    split; [by exists e, e2|]. split; [by eexists | done].
  - done.
Qed.


(** *** The nodes one by one *)

(** The configuration routing goes by: the one of the session, or every
    registered stage when that one is empty. *)
Definition agents_to_run (d : gmap string pyval) : gmap string pyval :=
  if truthy (PDict d) then d
  else list_to_map ((fun name => (name, PBool true)) <$> agents).

Lemma _route_to_agents_dict s o d :
  agents_config_of s = PDict d ->
  exists s' r,
    _route_to_agents (s, o) = ((s', o), Val tt)
    /\ parsed_elements s' = parsed_elements s
    /\ errors s' = errors s
    /\ progress s' !! "routing" = Some (PDict r)
    /\ r !! "status" = Some (PStr "completed")
    /\ r !! "agents_to_run" = Some (py_strs (map_to_list (agents_to_run d)).*1).
Proof.
  intros Hd.
  unfold _route_to_agents, try_except, bind, state, assign, set_progress_item, modify;
    simpl.
  unfold agents_config_of in *; simpl. rewrite Hd. unfold agents_to_run.
  destruct (truthy (PDict d)); simpl;
    unfold set_progress_field, bind, state, getitem, set_progress_item, assign, modify;
    simpl; rewrite lookup_insert_eq; simpl; rewrite lookup_insert_eq; simpl;
    eexists _, _; (split; [reflexivity|]); simpl; rewrite lookup_insert_eq;
    repeat split; try reflexivity;
    by rewrite ?lookup_insert_eq, ?lookup_insert_ne, ?lookup_insert_eq by done.
Qed.

(** X6. Routing, in a session whose stage configuration is a dictionary,
    raises and records nothing and completes; the stages it lists are the
    keys of the configuration, whether they are switched on or off, and
    [documenter] alone when the configuration is empty. *)
Theorem routing_lists_configured_stages s o d :
  agents_config_of s = PDict d ->
  exists s' r names,
    _route_to_agents (s, o) = ((s', o), Val tt)
    /\ errors s' = errors s
    /\ progress s' !! "routing" = Some (PDict r)
    /\ r !! "status" = Some (PStr "completed")
    /\ r !! "agents_to_run" = Some (py_strs names)
    /\ (forall k, k ∈ names <-> if bool_decide (d = ∅) then k = "documenter"
                                else is_Some (d !! k)).
Proof.
  intros Hd.
  destruct (_route_to_agents_dict s o d Hd) as (s' & r & Hrun & _ & He & Hp & Hs & Hn).
  exists s', r, (map_to_list (agents_to_run d)).*1. repeat split; try done.
  - intros Hk. apply list_elem_of_fmap in Hk as [[k' v] [-> Hk]].
    apply elem_of_map_to_list in Hk. unfold agents_to_run, truthy in Hk.
    destruct (decide (d = ∅)) as [E|E].
    + rewrite (bool_decide_eq_true_2 _ E).
      rewrite bool_decide_eq_true_2 in Hk by (by apply map_size_empty_iff).
      simpl in Hk. apply lookup_insert_Some in Hk as [[<- _]|[_ Hk]]; [done|].
      by rewrite lookup_empty in Hk.
    + rewrite (bool_decide_eq_false_2 _ E).
      rewrite bool_decide_eq_false_2 in Hk by (by rewrite map_size_empty_iff).
      simpl in *. by eexists.
  - intros Hk. apply list_elem_of_fmap. unfold agents_to_run, truthy.
    destruct (decide (d = ∅)) as [E|E].
    + rewrite (bool_decide_eq_true_2 _ E) in Hk. subst k.
      rewrite bool_decide_eq_true_2 by (by apply map_size_empty_iff). simpl.
      exists ("documenter", PBool true). split; [done|].
      apply elem_of_map_to_list. apply lookup_insert_eq.
    + rewrite (bool_decide_eq_false_2 _ E) in Hk.
      rewrite bool_decide_eq_false_2 by (by rewrite map_size_empty_iff).
      simpl. destruct Hk as [v Hv]. exists (k, v). split; [done|].
      by apply elem_of_map_to_list.
Qed.



(** The orchestrator after some more calls on its collaborators. *)
Definition logged (cs : list call) (o : Orchestrator) : Orchestrator :=
  {| active_sessions := active_sessions o; cache := cache o;
     calls := calls o ++ cs; clock_reads := clock_reads o |}.

Lemma logged_nil o : logged [] o = o.
Proof. destruct o. unfold logged; simpl. by rewrite app_nil_r. Qed.

Lemma logged_log c cs o : logged cs (log c o) = logged (c :: cs) o.
Proof. unfold logged, log; simpl. by rewrite <- app_assoc. Qed.

(** The call that stores one output; the aggregate is passed over. *)
Definition store_call (pid : Z) (kv : string * pyval) : option call :=
  if String.eqb kv.1 "aggregated" then None
  else Some (StoreAgentOutput pid kv.1 (_get_output_type kv.1) kv.2).

(** The loop of [_store_results] over the outputs [l]: the calls the store
    took, and the fault that ended the loop, if one did. *)
Fixpoint stored (pid : Z) (l : list (string * pyval)) : list call * option string :=
  match l with
  | [] => ([], None)
  | kv :: l' =>
      match store_call pid kv with
      | None => stored pid l'
      | Some c =>
          match db_fault c with
          | Some e => ([], Some e)
          | None => (c :: (stored pid l').1, (stored pid l').2)
          end
      end
  end.

Lemma store_loop pid l : forall s o,
  for_each (S := run_store) l
    (fun '(agent_type, output) =>
       if String.eqb agent_type "aggregated" then ret tt
       else on_orchestrator
              (db (StoreAgentOutput pid agent_type (_get_output_type agent_type) output)))
    (s, o)
  = ((s, logged (stored pid l).1 o),
     match (stored pid l).2 with
     | None => Val tt
     | Some e => Exc e
     end).
Proof.
  induction l as [|[k v] l IH]; intros s o; simpl.
  - by rewrite logged_nil.
  - unfold bind, store_call; simpl. destruct (String.eqb k "aggregated"); simpl.
    + apply IH.
    + unfold on_orchestrator, db; simpl.
      destruct (db_fault (StoreAgentOutput pid k (_get_output_type k) v)); simpl.
      * by rewrite logged_nil.
      * rewrite IH. by rewrite logged_log.
Qed.

Lemma stored_sound pid l :
  (forall c, c ∈ omap (store_call pid) l -> db_fault c = None) ->
  stored pid l = (omap (store_call pid) l, None).
Proof.
  induction l as [|kv l IH]; intros Hdb; simpl; [done|].
  simpl in Hdb. destruct (store_call pid kv) as [c|].
  - rewrite (Hdb c) by apply list_elem_of_here.
    rewrite IH; [done|]. intros c' Hc'. apply Hdb. by apply list_elem_of_further.
  - by apply IH.
Qed.

Lemma stored_fault pid l c :
  c ∈ omap (store_call pid) l -> is_Some (db_fault c) ->
  exists c' e, c' ∈ omap (store_call pid) l /\ db_fault c' = Some e
               /\ (stored pid l).2 = Some e.
Proof.
  induction l as [|kv l IH]; simpl; [by intros H%elem_of_nil|].
  destruct (store_call pid kv) as [c0|].
  - intros Hc Hf. destruct (db_fault c0) as [e0|] eqn:E0.
    + exists c0, e0. split; [apply list_elem_of_here | done].
    + apply elem_of_cons in Hc as [->|Hc]; [rewrite E0 in Hf; by destruct Hf|].
      destruct (IH Hc Hf) as (c' & e & Hc' & He & Hs).
      exists c', e. split; [by apply list_elem_of_further | done].
  - apply IH.
Qed.


(** [_store_results], by the loop. *)
Lemma _store_results_cases s o :
  let l := stored (project_id s) (map_to_list (agent_outputs s)) in
  exists s',
    _store_results (s, o) = ((s', logged l.1 o), Val tt)
    /\ agent_outputs s' = agent_outputs s
    /\ match l.2 with
       | None => errors s' = errors s /\ stage_completed s' "storage" = true
       | Some e => errors s' = (errors s ++ ["Results storage failed: " +:+ e])%list
                   /\ stage_completed s' "storage" = false
       end.
Proof.
  intros l. unfold _store_results, try_except, bind, state, assign, set_progress_item,
    modify; simpl.
  rewrite store_loop. fold l. destruct l.2 as [e|]; simpl.
  - eexists. split; [reflexivity|]. simpl. split; [done|]. split; [done|].
    unfold stage_completed; simpl. by rewrite lookup_insert_eq.
  - unfold set_progress_field, bind, state, getitem, set_progress_item, assign, modify;
      simpl.
    rewrite lookup_insert_eq; simpl.
    eexists. split; [reflexivity|]. simpl. split; [done|]. split; [done|].
    unfold stage_completed; simpl. by rewrite !lookup_insert_eq.
Qed.

(** The calls that store the outputs [m], but for the aggregate. *)
Lemma store_calls_permutation pid (m : gmap string pyval) :
  omap (store_call pid) (map_to_list m)
  ≡ₚ (fun kv => StoreAgentOutput pid kv.1 (_get_output_type kv.1) kv.2)
     <$> map_to_list (delete "aggregated" m).
Proof.
  assert (Hrest : forall l : list (string * pyval),
            Forall (fun kv => kv.1 <> "aggregated") l ->
            omap (store_call pid) l
            = (fun kv => StoreAgentOutput pid kv.1 (_get_output_type kv.1) kv.2) <$> l).
  { induction l as [|kv l IH]; intros Hl; simpl; [done|].
    apply Forall_cons in Hl as [Hkv Hl]. unfold store_call at 1.
    apply String.eqb_neq in Hkv. rewrite Hkv. simpl. f_equal. by apply IH. }
  assert (Hdel : Forall (fun kv : string * pyval => kv.1 <> "aggregated")
                   (map_to_list (delete "aggregated" m))).
  { apply Forall_forall. intros [k v] Hkv. apply elem_of_map_to_list in Hkv.
    simpl. intros ->. by rewrite lookup_delete_eq in Hkv. }
  destruct (m !! "aggregated") as [v|] eqn:Hm.
  - rewrite <- (insert_delete_id m "aggregated" v Hm) at 1.
    rewrite map_to_list_insert by apply lookup_delete_eq.
    simpl. by rewrite Hrest.
  - rewrite (delete_id m "aggregated" Hm) in *. by rewrite Hrest.
Qed.

(** X8. When the durable store takes every output, [_store_results]
    completes and records no error; the calls it made on the store are,
    in some order, one for each output of the session but the aggregate,
    with the output type that goes with the stage. *)
Theorem every_output_is_stored s o :
  (forall k v, db_fault (StoreAgentOutput (project_id s) k (_get_output_type k) v) = None) ->
  exists s' cs,
    _store_results (s, o) = ((s', logged cs o), Val tt)
    /\ errors s' = errors s
    /\ stage_completed s' "storage" = true
    /\ cs ≡ₚ (fun kv => StoreAgentOutput (project_id s) kv.1 (_get_output_type kv.1) kv.2)
             <$> map_to_list (delete "aggregated" (agent_outputs s)).
Proof.
  intros Hdb. destruct (_store_results_cases s o) as (s' & Hrun & _ & Hcase).
  rewrite stored_sound in Hrun, Hcase.
  2,3: intros c Hc; apply list_elem_of_omap in Hc as ([k v] & _ & Hc);
       unfold store_call in Hc; simpl in Hc;
       destruct (String.eqb k "aggregated"); [done|]; injection Hc as <-; apply Hdb.
  simpl in *. destruct Hcase as [He Hc].
  eexists _, _. split; [exact Hrun|]. repeat split; try done.
  apply store_calls_permutation.
Qed.

(** X9. When the durable store refuses one of the outputs, [_store_results]
    still returns: the refusal that ended the loop is appended to [errors]
    and the storage marker is left at [started]. *)
Theorem storage_fault_is_recorded s o k v :
  agent_outputs s !! k = Some v ->
  k <> "aggregated" ->
  is_Some (db_fault (StoreAgentOutput (project_id s) k (_get_output_type k) v)) ->
  exists s' o' k' v' e,
    _store_results (s, o) = ((s', o'), Val tt)
    /\ agent_outputs s !! k' = Some v'
    /\ db_fault (StoreAgentOutput (project_id s) k' (_get_output_type k') v') = Some e
    /\ errors s' = (errors s ++ ["Results storage failed: " +:+ e])%list
    /\ stage_completed s' "storage" = false.
Proof.
  intros Hk Hne Hf. destruct (_store_results_cases s o) as (s' & Hrun & _ & Hcase).
  destruct (stored_fault (project_id s) (map_to_list (agent_outputs s))
              (StoreAgentOutput (project_id s) k (_get_output_type k) v))
    as (c' & e & Hc' & He & Hs); [|done|].
  { apply list_elem_of_omap. exists (k, v). split; [by apply elem_of_map_to_list|].
    unfold store_call; simpl. apply String.eqb_neq in Hne. by rewrite Hne. }
  simpl in Hcase. rewrite Hs in Hcase. destruct Hcase as [Herr Hc].
  apply list_elem_of_omap in Hc' as ([k' v'] & Hkv & Hc').
  apply elem_of_map_to_list in Hkv.
  unfold store_call in Hc'; simpl in Hc'.
  destruct (String.eqb k' "aggregated"); [done|]. injection Hc' as <-.
  by exists s', (logged (stored (project_id s) (map_to_list (agent_outputs s))).1 o),
    k', v', e.
Qed.

(** X10. Error handling hides a fault of the durable store: when the store
    refuses the [failed] status, the node returns all the same, records no
    error, and has made no call; its marker is left at [started]. *)
Theorem failed_status_fault_is_swallowed s o e :
  errors s <> [] ->
  db_fault (UpdateSessionStatus (session_id s) "failed"
              (Some (String.concat "; " (errors s)))) = Some e ->
  exists s',
    _handle_errors (s, o) = ((s', o), Val tt)
    /\ errors s' = errors s
    /\ stage_completed s' "error_handling" = false.
Proof.
  intros He Hdb.
  unfold _handle_errors, try_except, bind, state, assign, set_progress_item, modify; simpl.
  set (c := UpdateSessionStatus _ _ _) in *.
  destruct (errors s) as [|e0 es] eqn:Hes; [done|].
  unfold on_orchestrator, db; simpl. rewrite Hdb; simpl.
  eexists. split; [reflexivity|]. simpl. split; [done|].
  unfold stage_completed; simpl. by rewrite lookup_insert_eq.
Qed.

(** *** Runs from end to end *)

(** The elements the parsing loop has recorded after the files [fs]. *)
Definition record_elements (pe : gmap string pyval) (f : gmap string string)
  : gmap string pyval :=
  match file_verdict f with
  | Parsed path elements => <[path := elements]> pe
  | _ => pe
  end.

Definition parsed (fs : list (gmap string string)) : gmap string pyval :=
  foldl record_elements ∅ fs.









End Workflow.

(** A run in whose state the documenter is switched off is the same run
    whatever the stage would answer. *)
Lemma run_without_stage parse_php_file parse_js_file analyze1 analyze2 db_fault utcnow fuel :
  forall n visited s,
    documenter_enabled s.1 = Val false ->
    run parse_php_file parse_js_file analyze1 db_fault utcnow fuel n visited s
    = run parse_php_file parse_js_file analyze2 db_fault utcnow fuel n visited s.
Proof.
  induction fuel as [|fuel IH]; intros n visited s Hoff; simpl; [done|].
  assert (Hn : node_fn parse_php_file parse_js_file analyze1 db_fault utcnow n s
               = node_fn parse_php_file parse_js_file analyze2 db_fault utcnow n s).
  { destruct n; try reflexivity. simpl. destruct s as [s o].
    rewrite !_run_documenter_cases. simpl in Hoff. by rewrite Hoff. }
  rewrite Hn.
  pose proof (node_frame parse_php_file parse_js_file analyze2 db_fault utcnow n s) as F.
  destruct (node_fn parse_php_file parse_js_file analyze2 db_fault utcnow n s)
    as [s' [[]|e|]]; try done.
  destruct (next n s'.1) as [[n'|]|]; try done.
  apply IH. destruct F as (_ & _ & _ & M & _). simpl in M.
  unfold documenter_enabled, agents_config_of in *. by rewrite M.
Qed.

(** X14. A stage that is switched off is never consulted: when the
    configuration says [documenter: False], [run_analysis] does the same,
    step for step, with any two documenter stages: same result, same calls
    on the collaborators, same registry and cache. *)
Theorem disabled_stage_is_never_consulted
    parse_php_file parse_js_file analyze1 analyze2 db_fault utcnow
    sid pid fs agents_config model tone o :
  documenter_configured agents_config = false ->
  run_analysis parse_php_file parse_js_file analyze1 db_fault utcnow
    sid pid fs agents_config model tone o
  = run_analysis parse_php_file parse_js_file analyze2 db_fault utcnow
      sid pid fs agents_config model tone o.
Proof.
  intros Hcfg. unfold run_analysis, try_except, bind.
  destruct (db_fault (UpdateSessionStatus sid "in_progress" None)) as [e0|] eqn:Hin.
  { by rewrite (start_session_fault _ _ _ _ _ _ _ _ _ _ Hin). }
  pose proof (start_session_registers db_fault utcnow sid pid fs agents_config model tone
                o Hin) as Hstart.
  cbv zeta in Hstart. rewrite Hstart.
  unfold ainvoke.
  rewrite (run_without_stage parse_php_file parse_js_file analyze1 analyze2); [done|].
  cbn [fst].
  rewrite (documenter_enabled_configured _ sid pid fs agents_config model tone
             (utcnow (clock_reads o)) eq_refl).
  by rewrite Hcfg.
Qed.

(** *** The collaborators the repository ships *)

(** A literal name that is not in a literal list of names. *)
Ltac absent_name :=
  let H := fresh in
  intros H;
  repeat (apply elem_of_cons in H as [H|H]; [discriminate H|]);
  by apply elem_of_nil in H.

(** [str(AttributeError)] for a missing attribute of an instance of class
    [cls]. *)
Definition attribute_error (cls name : string) : string :=
  "'" +:+ cls +:+ "' object has no attribute '" +:+ name +:+ "'".












(** [AgentOrchestrator.get_agents_status], over the agents the orchestrator
    holds. *)
Definition get_agents_status : M (gmap string Agent.BaseAgent) (gmap string pyval) :=
  let! agents := get in
  ret ((fun agent =>
          PDict {[ "active" := PBool (Agent.is_active agent);
                   "last_run" := match Agent.last_run agent with
                                 | Some t => PInt t
                                 | None => PNone
                                 end;
                   "total_runs" := PInt (Agent.total_runs agent) ]}) <$> agents).

(** *** Agent counters *)

Lemma get_agents_status_reads agents : (get_agents_status agents).1 = agents.
Proof. reflexivity. Qed.

(** C9 (amended). After an invocation of [_call_llm] that completed, the
    agent counts one more run and carries a new [last_run] stamp when the
    invocation succeeded, and keeps both as they were when it failed; the
    status report of the orchestrator reads the counters and changes none. *)
Theorem counters_follow_success `{impl : Agent.AgentImpl} clock messages context
    a n a' n' r :
  Agent._call_llm clock messages context (a, n) = ((a', n'), Val r) ->
  (if Agent.success r
   then Agent.total_runs a' = Agent.total_runs a + 1
        /\ Agent.last_run a' = Some (clock (S (S n)))
   else Agent.total_runs a' = Agent.total_runs a
        /\ Agent.last_run a' = Agent.last_run a)
  /\ (forall agents, (get_agents_status agents).1 = agents).
Proof.
  intros H. split; [exact (Agent._call_llm_counters _ _ _ _ _ _ _ _ H)|].
  apply get_agents_status_reads.
Qed.

(** *** Serialisation *)






(** *** Sample collaborators *)

(** A parser that accepts the sources opening a PHP block and rejects the
    others. *)
Definition sample_parser (content path : string) : outcome pyval :=
  if String.prefix "<?php" content
  then Val (PDict {[ "content" := PStr content ]})
  else Exc "syntax error, unexpected end of file".

(** A stage that answers, one that raises, one that never returns. *)
Definition answering_stage (pe : gmap string pyval) (pid : Z) (model tone : pyval)
  : outcome pyval :=
  Val (PDict {[ "success" := PBool true; "data" := PDict pe ]}).

Definition faulty_stage (pe : gmap string pyval) (pid : Z) (model tone : pyval)
  : outcome pyval :=
  Exc "Connection error.".

Definition wedged_stage (pe : gmap string pyval) (pid : Z) (model tone : pyval)
  : outcome pyval :=
  Hang.

(** A durable store that answers every call and knows no session. *)
Definition sound_store (c : call) : option string := None.
Definition no_session (sid : string) : option pyval := None.

Definition sample_clock (n : nat) : string := "2024-05-01T10:00:00".

Definition empty_orchestrator : Orchestrator :=
  {| active_sessions := ∅; cache := ∅; calls := []; clock_reads := 0 |}.

Definition good_file : gmap string string :=
  {[ "path" := "app/User.php"; "content" := "<?php class User {}" ]}.

Definition broken_file : gmap string string :=
  {[ "path" := "app/Broken.php"; "content" := "class {" ]}.

Definition sample_state (fs : list (gmap string string)) : AnalysisState :=
  initial_state "s1" 7 fs None "llama-3-70b" "professional" (sample_clock 0).


Definition sample_run (analyze : gmap string pyval -> Z -> pyval -> pyval -> outcome pyval)
    (fs : list (gmap string string)) : list node * run_store * outcome unit :=
  run sample_parser sample_parser analyze sound_store sample_clock
    recursion_limit entry_point [] (sample_state fs, empty_orchestrator).

Definition sample_analysis (analyze : gmap string pyval -> Z -> pyval -> pyval -> outcome pyval)
    (sid : string) (pid : Z) (fs : list (gmap string string)) (o : Orchestrator)
  : Orchestrator * outcome (gmap string pyval) :=
  run_analysis sample_parser sample_parser analyze sound_store sample_clock
    sid pid fs None "llama-3-70b" "professional" o.

Definition first_registration : Orchestrator :=
  (start_session sound_store sample_clock "s1" 7 [good_file] None
     "llama-3-70b" "professional" empty_orchestrator).1.

(** *** The claims on concrete sessions *)





(** Status lookups on concrete orchestrators: a registered session is
    answered from memory and no collaborator is called; a session known to
    the cache alone is answered from the cache after one call on it. *)
Example lookup_in_memory :
  get_session_status sound_store no_session "s1" first_registration
  = (first_registration, Val (Some (memory_view "s1" (sample_state [good_file])))).
Proof. vm_compute. reflexivity. Qed.

Example lookup_in_cache :
  let o := set_active_sessions ∅ first_registration in
  (get_session_status sound_store no_session "s1" o).2
  = Val (Some (cached_view "s1" (sample_state [good_file])))
  /\ calls (get_session_status sound_store no_session "s1" o).1
     = (calls o ++ [CacheGet "session:s1"])%list.
Proof. vm_compute. by split. Qed.

Example lookup_nowhere :
  (get_session_status sound_store no_session "s2" first_registration).2 = Val None
  /\ calls (get_session_status sound_store no_session "s2" first_registration).1
     = (calls first_registration
        ++ [CacheGet "session:s2"; GetAnalysisSession "s2"])%list.
Proof. vm_compute. by split. Qed.

(** The markers and outputs of the pipeline's own steps, after the run of a
    session whose one file parsed: parsing has a [completed] marker and no
    output, and the aggregate of the collector is an output with no marker
    of its name. *)
Example pipeline_steps_are_not_stages :
  stage_completed (sample_run answering_stage [good_file]).1.2.1 "parsing" = true
  /\ agent_outputs (sample_run answering_stage [good_file]).1.2.1 !! "parsing" = None
  /\ is_Some (agent_outputs (sample_run answering_stage [good_file]).1.2.1 !! "aggregated")
  /\ progress (sample_run answering_stage [good_file]).1.2.1 !! "aggregated" = None
  /\ stage_completed (sample_run answering_stage [good_file]).1.2.1 "documenter" = true
  /\ is_Some (agent_outputs (sample_run answering_stage [good_file]).1.2.1 !! "documenter").
Proof.
  repeat split; try (vm_compute; reflexivity); vm_compute; by eexists.
Qed.




(** C5, as stated, fails: with a stage that never returns the call stays
    suspended; the session is not marked failed and stays registered. *)
Lemma wedged_session_is_never_failed :
  (sample_analysis wedged_stage "s1" 7 [good_file] empty_orchestrator).2 = Hang
  /\ status_writes "s1"
       (calls (sample_analysis wedged_stage "s1" 7 [good_file] empty_orchestrator).1)
     = ["in_progress"]
  /\ errors (sample_run wedged_stage [good_file]).1.2.1 = []
  /\ is_Some (active_sessions
                (sample_analysis wedged_stage "s1" 7 [good_file] empty_orchestrator).1
                !! "s1").
Proof.
  split; [vm_compute; reflexivity|].
  split; [vm_compute; reflexivity|].
  split; [vm_compute; reflexivity|].
  vm_compute. by eexists.
Qed.

Lemma wedged_stage_suspends_session_witness :
  exists st s' o',
    start_session sound_store sample_clock "s1" 7 [good_file] None
      "llama-3-70b" "professional" empty_orchestrator = (o', Val st)
    /\ run sample_parser sample_parser wedged_stage sound_store sample_clock
         recursion_limit entry_point [] (st, o')
       = ([parse_code; route_to_agents; run_documenter], (s', o'), Hang)
    /\ errors s' = []
    /\ sample_analysis wedged_stage "s1" 7 [good_file] empty_orchestrator = (o', Hang)
    /\ status_writes "s1" (calls o')
       = (status_writes "s1" (calls empty_orchestrator) ++ ["in_progress"])%list
    /\ is_Some (active_sessions o' !! "s1").
Proof.
  exact (wedged_stage_suspends_session sample_parser sample_parser wedged_stage
           sound_store sample_clock "s1" 7 [good_file] None "llama-3-70b"
           "professional" empty_orchestrator
           (fun _ _ _ _ => eq_refl) eq_refl eq_refl eq_refl eq_refl).
Defined.

Lemma stage_fault_absorbed_witness :
  (forall n s e',
     (node_fn sample_parser sample_parser faulty_stage sound_store sample_clock n s).2
     <> Exc e')
  /\ exists s' o',
    sample_run faulty_stage [good_file]
    = ([parse_code; route_to_agents; run_documenter; collect_results; store_results],
       (s', o'), Val tt)
    /\ "Documenter agent failed: Connection error." ∈ errors s'
    /\ agent_outputs s' !! "documenter" = None
    /\ stage_completed s' "documenter" = false.
Proof.
  exact (stage_fault_absorbed sample_parser sample_parser faulty_stage sound_store
           sample_clock "s1" 7 [good_file] None "llama-3-70b" "professional"
           (sample_clock 0) empty_orchestrator "Connection error."
           (fun _ _ _ _ => eq_refl) eq_refl eq_refl eq_refl).
Defined.

(** C9, as stated, fails: the model refuses the connection, the invocation
    completes with a failed result, and the agent has counted no run and
    carries no [last_run] stamp. *)
Lemma failed_invocation_is_not_counted :
  exists a' n' r,
    Agent._call_llm (impl := Agent.plain_impl) Agent.wall_clock
      [Agent.HumanMessage "Document class User."] ∅
      (Agent.fresh_agent Agent.unreachable, 0%nat) = ((a', n'), Val r)
    /\ Agent.success r = false
    /\ Agent.errors r = ["Connection error."]
    /\ Agent.total_runs a' = 0
    /\ Agent.last_run a' = None.
Proof. eexists _, _, _. split; [vm_compute; reflexivity|]. by repeat split. Qed.

Lemma counters_follow_success_witness :
  exists a' n',
    (Agent._call_llm (impl := Agent.plain_impl) Agent.wall_clock
       [Agent.HumanMessage "Document class User."] ∅
       (Agent.fresh_agent Agent.answering, 0%nat)).1 = (a', n')
    /\ Agent.total_runs a' = 1
    /\ Agent.last_run a' = Some 1002.
Proof.
  eexists _, _. split; [vm_compute; reflexivity|].
  destruct (counters_follow_success (impl := Agent.plain_impl) Agent.wall_clock
              [Agent.HumanMessage "Document class User."] ∅
              (Agent.fresh_agent Agent.answering) 0%nat _ _ _
              ltac:(vm_compute; reflexivity)) as [H _].
  exact H.
Defined.

(** *** Further properties on concrete sessions *)

(** A durable store that takes the [in_progress] status and refuses the
    later ones, and one that has no room for outputs. *)
Definition outage_store (c : call) : option string :=
  match c with
  | UpdateSessionStatus _ status _ =>
      if String.eqb status "in_progress" then None else Some "connection lost"
  | _ => None
  end.

Definition full_store (c : call) : option string :=
  match c with
  | StoreAgentOutput _ _ _ _ => Some "disk full"
  | _ => None
  end.





Lemma refused_status_leaves_session_registered_witness :
  (exists e e',
     outage_store (UpdateSessionStatus "s1" "failed" (Some e)) = Some e'
     /\ (run_analysis sample_parser sample_parser answering_stage outage_store
           sample_clock "s1" 7 [good_file] None "llama-3-70b" "professional"
           empty_orchestrator).2 = Exc e')
  /\ is_Some (active_sessions
                (run_analysis sample_parser sample_parser answering_stage outage_store
                   sample_clock "s1" 7 [good_file] None "llama-3-70b" "professional"
                   empty_orchestrator).1 !! "s1")
  /\ cache (run_analysis sample_parser sample_parser answering_stage outage_store
              sample_clock "s1" 7 [good_file] None "llama-3-70b" "professional"
              empty_orchestrator).1 !! session_key "s1"
     = Some (PDict (to_dict (sample_state [good_file]))).
Proof.
  exact (refused_status_leaves_session_registered sample_parser sample_parser
           answering_stage outage_store sample_clock "s1" 7 [good_file] None
           "llama-3-70b" "professional" empty_orchestrator eq_refl
           (ex_intro _ "connection lost" eq_refl)
           (fun _ => ex_intro _ "connection lost" eq_refl)
           ltac:(vm_compute; discriminate)).
Defined.


(** A session that asks for the tester and switches the documenter off. *)
Definition tester_only_config : gmap string bool :=
  {[ "documenter" := false; "tester" := true ]}.

Definition tester_only : AnalysisState :=
  initial_state "s1" 7 [good_file] (Some tester_only_config)
    "llama-3-70b" "professional" (sample_clock 0).

Lemma routing_lists_configured_stages_witness :
  exists s' r names,
    _route_to_agents (tester_only, empty_orchestrator) = ((s', empty_orchestrator), Val tt)
    /\ errors s' = errors tester_only
    /\ progress s' !! "routing" = Some (PDict r)
    /\ r !! "status" = Some (PStr "completed")
    /\ r !! "agents_to_run" = Some (py_strs names)
    /\ (forall k, k ∈ names
                  <-> if bool_decide ((PBool <$> tester_only_config) = ∅)
                      then k = "documenter"
                      else is_Some ((PBool <$> tester_only_config) !! k)).
Proof.
  exact (routing_lists_configured_stages tester_only empty_orchestrator
           (PBool <$> tester_only_config) eq_refl).
Defined.

(** A state that holds the output of one stage. *)
Definition with_output : AnalysisState :=
  set_agent_outputs {[ "documenter" := PStr "User: a user of the shop." ]}
    (sample_state [good_file]).

Lemma every_output_is_stored_witness :
  exists s' cs,
    _store_results sound_store (with_output, empty_orchestrator)
    = ((s', logged cs empty_orchestrator), Val tt)
    /\ errors s' = errors with_output
    /\ stage_completed s' "storage" = true
    /\ cs ≡ₚ (fun kv => StoreAgentOutput (project_id with_output) kv.1
                          (_get_output_type kv.1) kv.2)
             <$> map_to_list (delete "aggregated" (agent_outputs with_output)).
Proof.
  exact (every_output_is_stored sound_store with_output empty_orchestrator
           (fun _ _ => eq_refl)).
Defined.

Lemma storage_fault_is_recorded_witness :
  exists s' o' k' v' e,
    _store_results full_store (with_output, empty_orchestrator) = ((s', o'), Val tt)
    /\ agent_outputs with_output !! k' = Some v'
    /\ full_store (StoreAgentOutput (project_id with_output) k' (_get_output_type k') v')
       = Some e
    /\ errors s' = (errors with_output ++ ["Results storage failed: " +:+ e])%list
    /\ stage_completed s' "storage" = false.
Proof.
  exact (storage_fault_is_recorded full_store with_output empty_orchestrator
           "documenter" (PStr "User: a user of the shop.")
           ltac:(vm_compute; reflexivity) ltac:(discriminate)
           (ex_intro _ "disk full" eq_refl)).
Defined.

(** A state that carries one error. *)
Definition with_error : AnalysisState :=
  set_errors ["Parse error in app/Broken.php: syntax error"] (sample_state [broken_file]).

Lemma failed_status_fault_is_swallowed_witness :
  exists s',
    _handle_errors outage_store (with_error, empty_orchestrator)
    = ((s', empty_orchestrator), Val tt)
    /\ errors s' = errors with_error
    /\ stage_completed s' "error_handling" = false.
Proof.
  exact (failed_status_fault_is_swallowed outage_store with_error empty_orchestrator
           "connection lost" ltac:(discriminate) eq_refl).
Defined.




Lemma disabled_stage_is_never_consulted_witness :
  run_analysis sample_parser sample_parser answering_stage sound_store sample_clock
    "s1" 7 [good_file] (Some {[ "documenter" := false ]}) "llama-3-70b" "professional"
    empty_orchestrator
  = run_analysis sample_parser sample_parser wedged_stage sound_store sample_clock
      "s1" 7 [good_file] (Some {[ "documenter" := false ]}) "llama-3-70b" "professional"
      empty_orchestrator.
Proof.
  exact (disabled_stage_is_never_consulted sample_parser sample_parser answering_stage
           wedged_stage sound_store sample_clock "s1" 7 [good_file]
           (Some {[ "documenter" := false ]}) "llama-3-70b" "professional"
           empty_orchestrator eq_refl).
Defined.



End Graph.

(** ** The documenter stage ([agents/documenter.py]) *)

Module Documenter.

(** [DocumentationElement], after [__post_init__] has put an empty list
    where a list was left out. *)
Record DocumentationElement : Type := mkElement {
  element_type : string;
  element_name : string;
  file_path : string;
  line_number : option Z;
  description : string;
  parameters : list pyval;
  return_value : string;
  examples : list string;
  code_snippets : list string;
  dependencies : list string;
  related_elements : list string
}.

(** *** Line numbers *)

Definition newline : Ascii.ascii := Ascii.ascii_of_nat 10.

(** [s.split(sep)] for a separator of one character. *)
Fixpoint split (sep : Ascii.ascii) (s : string) : list string :=
  match s with
  | EmptyString => [""]
  | String c s' =>
      if Ascii.eqb c sep then "" :: split sep s'
      else match split sep s' with
           | line :: rest => String c line :: rest
           | [] => [String c ""]
           end
  end.

(** The loop of [_find_line_number], from line index [i] and position
    [current_pos] on. *)
Fixpoint find_line (lines : list string) (i current_pos char_position : Z) : option Z :=
  match lines with
  | [] => None
  | line :: rest =>
      let current_pos := current_pos + Z.of_nat (String.length line) + 1 in
      if current_pos >? char_position then Some (i + 1)
      else find_line rest (i + 1) current_pos char_position
  end.

(** [DocumenterAgent._find_line_number]; on a list of strings and an
    integer the [try] of the source has nothing to catch. *)
Definition _find_line_number (lines : list string) (char_position : Z) : option Z :=
  find_line lines 0 0 char_position.

(** The number of newlines among the first [p] characters of [s]. *)
Fixpoint newlines_before (p : nat) (s : string) : Z :=
  match p, s with
  | S p', String c s' =>
      (if Ascii.eqb c newline then 1 else 0) + newlines_before p' s'
  | _, _ => 0
  end.

Lemma split_not_nil sep s : split sep s <> [].
Proof.
  destruct s as [|c s]; simpl; [done|].
  destruct (Ascii.eqb c sep); [done|]. by destruct (split sep s).
Qed.

Ltac gtb_case :=
  match goal with
  | |- context [?a >? ?b] => destruct (Z.gtb_spec a b); try lia
  end.

Lemma find_line_split s : forall (p : nat) i current_pos,
  (p <= String.length s)%nat ->
  find_line (split newline s) i current_pos (current_pos + Z.of_nat p)
  = Some (i + 1 + newlines_before p s).
Proof.
  induction s as [|c s IH]; intros p i cur Hp; simpl in Hp.
  - assert (p = 0%nat) as -> by lia. simpl. gtb_case. f_equal. lia.
  - destruct p as [|p].
    + replace (newlines_before 0 (String c s)) with 0 by done. simpl.
      destruct (Ascii.eqb c newline); simpl.
      * gtb_case. f_equal. lia.
      * destruct (split newline s) as [|line rest]; simpl; gtb_case; f_equal; lia.
    + cbn [split newlines_before]. destruct (Ascii.eqb c newline).
      * cbn [find_line String.length]. gtb_case.
        replace (cur + Z.of_nat (S p)) with ((cur + Z.of_nat 0 + 1) + Z.of_nat p) by lia.
        rewrite IH by lia. f_equal. lia.
      * specialize (IH p i (cur + 1) ltac:(lia)).
        destruct (split newline s) as [|line rest] eqn:Hs; [done|].
        cbn [find_line String.length] in *.
        replace (cur + Z.of_nat (S (String.length line)) + 1)
          with (cur + 1 + Z.of_nat (String.length line) + 1) by lia.
        replace (cur + Z.of_nat (S p)) with (cur + 1 + Z.of_nat p) by lia.
        rewrite IH. f_equal; lia.
Qed.

Lemma find_line_beyond s : forall i current_pos char_position,
  current_pos + Z.of_nat (String.length s) < char_position ->
  find_line (split newline s) i current_pos char_position = None.
Proof.
  induction s as [|c s IH]; intros i cur pos Hp; cbn [String.length split] in *.
  - cbn. gtb_case. done.
  - destruct (Ascii.eqb c newline).
    + cbn [find_line String.length]. gtb_case. apply IH. lia.
    + specialize (IH i (cur + 1) pos ltac:(lia)).
      destruct (split newline s) as [|line rest] eqn:Hs.
      * by destruct (split_not_nil newline s).
      * cbn [find_line String.length] in *.
        replace (cur + Z.of_nat (S (String.length line)) + 1)
          with (cur + 1 + Z.of_nat (String.length line) + 1) by lia.
        exact IH.
Qed.

(** X23. The line number of a position in a text: for the lines of
    [content] as [split] cuts them at the newlines, and a position that
    lies in the text or just after its end, [_find_line_number] answers one
    more than the number of newlines before the position, which is the
    number of the line the position is in, counted from one; for a
    position further out it answers [None]. *)
Theorem _find_line_number_counts_newlines content (p : nat) :
  _find_line_number (split newline content) (Z.of_nat p)
  = if (p <=? String.length content)%nat then Some (1 + newlines_before p content)
    else None.
Proof.
  unfold _find_line_number. destruct (p <=? String.length content)%nat eqn:Hp.
  - apply Nat.leb_le in Hp.
    pose proof (find_line_split content p 0 0 Hp) as H.
    rewrite Z.add_0_l in H. rewrite H. f_equal.
  - apply Nat.leb_gt in Hp. apply find_line_beyond. lia.
Qed.

(** *** Enhancing what the model returned *)

(** [x + l] for a list [l]: only a list can be added to a list. *)
Definition add_list (x : pyval) (l : list pyval) : outcome pyval :=
  match x with
  | PList l0 => Val (PList (l0 ++ l))
  | PStr _ =>
      Exc ("can only concatenate str (not "
           +:+ String (Ascii.ascii_of_nat 34)
                 ("list" +:+ String (Ascii.ascii_of_nat 34) ") to str"))
  | _ => Exc ("unsupported operand type(s) for +: '" +:+ type_name x +:+ "' and 'list'")
  end.

(** The keys the clean-up loop of [_enhance_documentation] goes through. *)
Definition list_keys : list string :=
  ["parameters"; "examples"; "code_snippets"; "dependencies"; "related_elements"].

(** [if not enhanced_doc[key]: enhanced_doc[key] = []] *)
Definition clean (key : string) : M (gmap string pyval) unit :=
  let! enhanced_doc := get in
  let! value := Graph.getitem enhanced_doc key in
  if negb (truthy value) then modify (insert key (PList [])) else ret tt.

Section Stage.

Context `{impl : Agent.AgentImpl}.

(** The system clock, and [datetime.isoformat]. *)
Variable clock : nat -> Z.
Variable isoformat : Z -> string.

(** [_extract_documentation_elements], which goes by regular expressions,
    and [_create_documentation_prompt], by the element and the tone of the
    configuration. *)
Variable _extract_documentation_elements : gmap string pyval -> list DocumentationElement.
Variable _create_documentation_prompt : DocumentationElement -> string -> string.

(** [self.last_run.isoformat() if self.last_run else None] *)
Definition timestamp (a : Agent.BaseAgent) : pyval :=
  match Agent.last_run a with
  | Some t => PStr (isoformat t)
  | None => PNone
  end.

Definition py_line_number (element : DocumentationElement) : pyval :=
  match line_number element with
  | Some n => PInt n
  | None => PNone
  end.

(** [DocumenterAgent._enhance_documentation] *)
Definition _enhance_documentation (element : DocumentationElement)
    (llm_data : gmap string pyval) : M Agent.store (gmap string pyval) :=
  let! a := Agent.self in
  let! deps := await (add_list (default (PList []) (llm_data !! "dependencies"))
                        (PStr <$> dependencies element)) in
  let! related := await (add_list (default (PList []) (llm_data !! "related_elements"))
                           (PStr <$> related_elements element)) in
  let enhanced_doc : gmap string pyval :=
    {[ "element_type" := PStr (element_type element);
       "element_name" := PStr (element_name element);
       "file_path" := PStr (file_path element);
       "line_number" := py_line_number element;
       "description" := default (PStr "") (llm_data !! "description");
       "parameters" := default (PList []) (llm_data !! "parameters");
       "return_value" := default (PStr "") (llm_data !! "return_value");
       "examples" := default (PList []) (llm_data !! "examples");
       "code_snippets" := default (PList []) (llm_data !! "code_snippets");
       "dependencies" := deps;
       "related_elements" := related;
       "metadata" := PDict {[ "generated_by" := PStr "documenter_agent";
                              "model" := PStr (Agent.model (Agent.config a));
                              "tone" := PStr (Agent.tone (Agent.config a));
                              "timestamp" := timestamp a ]} ]} in
  let '(cleaned, r) := for_each list_keys clean enhanced_doc in
  do! await r in
  ret cleaned.

(** [DocumenterAgent._generate_element_documentation] *)
Definition _generate_element_documentation (element : DocumentationElement)
  : M Agent.store (option (gmap string pyval)) :=
  try_except
    (let context : gmap string pyval :=
       {[ "element_type" := PStr (element_type element);
          "element_name" := PStr (element_name element);
          "file_path" := PStr (file_path element);
          "line_number" := py_line_number element;
          "dependencies" := PList (PStr <$> dependencies element);
          "related_elements" := PList (PStr <$> related_elements element) ]} in
     let! a := Agent.self in
     let prompt := _create_documentation_prompt element (Agent.tone (Agent.config a)) in
     let! result := Agent._call_llm clock [Agent.HumanMessage prompt] context in
     if Agent.success result then
       let! documentation := _enhance_documentation element (Agent.data result) in
       ret (Some documentation)
     else ret None)
    (fun e => ret None).

(** *** The summary *)

(** The keys a dictionary can have among the values: [None], the integers
    (with [False] and [True], which are the keys 0 and 1) and the
    strings. *)
Inductive hkey : Type :=
| KNone
| KInt (z : Z)
| KStr (s : string).

#[export] Instance hkey_eq_dec : EqDecision hkey.
Proof. solve_decision. Defined.

#[export] Instance hkey_countable : Countable hkey.
Proof.
  refine (inj_countable'
            (fun k => match k with
                      | KNone => inl tt
                      | KInt z => inr (inl z)
                      | KStr s => inr (inr s)
                      end)
            (fun x => match x with
                      | inl _ => KNone
                      | inr (inl z) => KInt z
                      | inr (inr s) => KStr s
                      end) _).
  by intros [].
Defined.

(** [hash(v)]: lists and dictionaries have none. *)
Definition key_of (v : pyval) : outcome hkey :=
  match v with
  | PNone => Val KNone
  | PBool b => Val (KInt (if b then 1 else 0))
  | PInt z => Val (KInt z)
  | PStr s => Val (KStr s)
  | PList _ | PDict _ => Exc ("unhashable type: '" +:+ type_name v +:+ "'")
  end.

(** What [_generate_documentation_summary] returns. *)
Record Summary : Type := mkSummary {
  total_elements : Z;
  element_type_breakdown : gmap hkey Z;
  coverage_percentage : Z;
  documentation_quality : string
}.

(** The body of its loop. *)
Definition count_element (element : gmap string pyval) : M (gmap hkey Z) unit :=
  let! element_type := await (key_of (default (PStr "unknown") (element !! "element_type"))) in
  let! element_types := get in
  do! (if bool_decide (is_Some (element_types !! element_type)) then ret tt
       else modify (insert element_type 0)) in
  modify (fun element_types =>
            <[element_type := default 0 (element_types !! element_type) + 1]> element_types).

(** [DocumenterAgent._generate_documentation_summary] *)
Definition _generate_documentation_summary (documented_elements : list (gmap string pyval))
  : outcome Summary :=
  let total := Z.of_nat (length documented_elements) in
  let '(element_types, r) := for_each documented_elements count_element ∅ in
  match r with
  | Val _ =>
      Val {| total_elements := total;
             element_type_breakdown := element_types;
             coverage_percentage := if total >? 0 then 100 else 0;
             documentation_quality := if total >? 0 then "comprehensive" else "none" |}
  | Exc e => Exc e
  | Hang => Hang
  end.

(** *** The analysis *)

(** The report [analyze] builds, and the [AgentResult] it returns: its
    [data] is the report or the empty dictionary; [processing_time] and
    [tokens_used] are left at their defaults. *)
Record DocumentationReport : Type := mkReport {
  report_project_id : Z;
  report_total_elements : Z;
  report_documented_elements : Z;
  report_elements : list (gmap string pyval);
  report_summary : Summary;
  report_metadata : gmap string pyval
}.

Inductive result_data : Type :=
| Report (report : DocumentationReport)
| NoData.

Record AnalysisResult : Type := mkAnalysis {
  success : bool;
  data : result_data;
  metadata : gmap string pyval;
  errors : list string
}.

Definition set_model (m : string) (a : Agent.BaseAgent) : Agent.BaseAgent :=
  Agent.set_config {| Agent.model := m; Agent.tone := Agent.tone (Agent.config a) |} a.

Definition set_tone (t : string) (a : Agent.BaseAgent) : Agent.BaseAgent :=
  Agent.set_config {| Agent.model := Agent.model (Agent.config a); Agent.tone := t |} a.

(** [if x: ...] for an optional string. *)
Definition when_given (x : option string) (f : string -> M Agent.store unit)
  : M Agent.store unit :=
  match x with
  | Some s => if negb (String.eqb s "") then f s else ret tt
  | None => ret tt
  end.

(** The loop of [analyze]; the local variable is [documented_elements]. *)
Definition document (element : DocumentationElement)
  : M (Agent.store * list (gmap string pyval)) unit :=
  try_except
    (let! documentation := Graph.outer (_generate_element_documentation element) in
     match documentation with
     | Some doc =>
         if truthy (PDict doc) then Graph.set_local (fun l => (l ++ [doc])%list)
         else ret tt
     | None => ret tt
     end)
    (fun e => ret tt).

(** [DocumenterAgent.analyze] *)
Definition analyze (parsed_elements : gmap string pyval) (project_id : Z)
    (model tone : option string) : M Agent.store AnalysisResult :=
  try_except
    (do! when_given model (fun m => Agent.update (set_model m)) in
     do! when_given tone (fun t => Agent.update (set_tone t)) in
     let doc_elements := _extract_documentation_elements parsed_elements in
     Graph.with_local []
       (do! for_each doc_elements document in
        let! documented_elements := Graph.local in
        let! summary := await (_generate_documentation_summary documented_elements) in
        let! a := Graph.outer Agent.self in
        let documentation_report :=
          {| report_project_id := project_id;
             report_total_elements := Z.of_nat (length doc_elements);
             report_documented_elements := Z.of_nat (length documented_elements);
             report_elements := documented_elements;
             report_summary := summary;
             report_metadata :=
               {[ "agent" := PStr "documenter";
                  "model" := PStr (Agent.model (Agent.config a));
                  "tone" := PStr (Agent.tone (Agent.config a));
                  "timestamp" := timestamp a ]} |} in
        ret {| success := true;
               data := Report documentation_report;
               metadata :=
                 {[ "model" := PStr (Agent.model (Agent.config a));
                    "tone" := PStr (Agent.tone (Agent.config a));
                    "elements_processed" := PInt (Z.of_nat (length doc_elements));
                    "elements_documented" :=
                      PInt (Z.of_nat (length documented_elements)) ]};
               errors := [] |}))
    (fun e =>
       ret {| success := false;
              data := NoData;
              metadata := {[ "error" := PStr e ]};
              errors := [e] |}).

(** *** What the clean-up leaves *)

(** A literal name that is in a literal list of names. *)
Ltac listed_name :=
  by repeat first [ apply list_elem_of_here | apply list_elem_of_further ].

(** An entry after the clean-up. *)
Definition tidy (v : pyval) : pyval := if truthy v then v else PList [].

Lemma tidy_idem v : tidy (tidy v) = tidy v.
Proof. unfold tidy. by destruct (truthy v) eqn:E; [rewrite E|]. Qed.

Lemma tidy_list l : tidy (PList l) = PList l.
Proof. by destruct l. Qed.

Lemma tidy_shape v : tidy v = PList [] \/ truthy (tidy v) = true.
Proof. unfold tidy. destruct (truthy v) eqn:E; [right; by rewrite E | by left]. Qed.

Lemma clean_present key doc v :
  doc !! key = Some v ->
  clean key doc = (if truthy v then doc else <[key := PList []]> doc, Val tt).
Proof.
  intros Hv. unfold clean, bind, get, Graph.getitem. simpl. rewrite Hv. simpl.
  by destruct (truthy v).
Qed.

Lemma clean_all keys : forall doc,
  (forall k, k ∈ keys -> is_Some (doc !! k)) ->
  exists doc',
    for_each keys clean doc = (doc', Val tt)
    /\ forall k, doc' !! k = if bool_decide (k ∈ keys) then tidy <$> doc !! k
                            else doc !! k.
Proof.
  induction keys as [|key keys IH]; intros doc Hkeys; cbn [for_each].
  - exists doc. split; [done|]. intros k.
    rewrite bool_decide_eq_false_2; [done | apply not_elem_of_nil].
  - destruct (Hkeys key) as [v Hv]; [apply list_elem_of_here|].
    unfold bind. rewrite (clean_present key doc v Hv).
    set (doc1 := if truthy v then doc else <[key := PList []]> doc).
    assert (H1 : forall k, doc1 !! k = if decide (k = key) then Some (tidy v)
                                       else doc !! k).
    { intros k. unfold doc1, tidy. destruct (decide (k = key)) as [->|Hne].
      - destruct (truthy v); [done | apply lookup_insert_eq].
      - destruct (truthy v); [done | by apply lookup_insert_ne]. }
    destruct (IH doc1) as (doc' & Hrun & Hdoc').
    { intros k Hk. rewrite H1. destruct (decide (k = key)); [by eexists|].
      apply Hkeys. by apply list_elem_of_further. }
    exists doc'. split; [exact Hrun|]. intros k. rewrite Hdoc', H1.
    destruct (decide (k = key)) as [->|Hne].
    + rewrite (bool_decide_eq_true_2 (key ∈ key :: keys)) by apply list_elem_of_here.
      rewrite Hv. simpl. case_bool_decide; [by rewrite tidy_idem | done].
    + case_bool_decide as Hin.
      * by rewrite bool_decide_eq_true_2 by (by apply list_elem_of_further).
      * rewrite bool_decide_eq_false_2; [done|].
        intros [->|Hk]%elem_of_cons; done.
Qed.

(** The two lists [_enhance_documentation] concatenates. *)
Definition joined (llm_data : gmap string pyval) (key : string) (own : list string)
  : outcome pyval :=
  add_list (default (PList []) (llm_data !! key)) (PStr <$> own).

Lemma joined_list llm_data key own v :
  joined llm_data key own = Val v ->
  exists l, default (PList []) (llm_data !! key) = PList l
            /\ v = PList (l ++ (PStr <$> own)).
Proof.
  unfold joined, add_list.
  destruct (default (PList []) (llm_data !! key)) as [|b|z|s|l|d]; try discriminate.
  intros [= <-]. by exists l.
Qed.

Lemma joined_not_hang llm_data key own : joined llm_data key own <> Hang.
Proof.
  unfold joined, add_list.
  by destruct (default (PList []) (llm_data !! key)).
Qed.

(** [_enhance_documentation], by what the two concatenations give. *)
Lemma _enhance_documentation_cases element llm_data s :
  match joined llm_data "dependencies" (dependencies element) with
  | Val deps =>
      match joined llm_data "related_elements" (related_elements element) with
      | Val related =>
          exists doc,
            _enhance_documentation element llm_data s = (s, Val doc)
            /\ doc !! "element_type" = Some (PStr (element_type element))
            /\ doc !! "element_name" = Some (PStr (element_name element))
            /\ doc !! "file_path" = Some (PStr (file_path element))
            /\ doc !! "line_number" = Some (py_line_number element)
            /\ doc !! "dependencies" = Some deps
            /\ doc !! "related_elements" = Some related
            /\ (forall k, k ∈ list_keys ->
                  exists v, doc !! k = Some v /\ (v = PList [] \/ truthy v = true))
      | Exc e => _enhance_documentation element llm_data s = (s, Exc e)
      | Hang => False
      end
  | Exc e => _enhance_documentation element llm_data s = (s, Exc e)
  | Hang => False
  end.
Proof.
  unfold _enhance_documentation, bind, Agent.self, await. fold (joined llm_data "dependencies" (dependencies element)).
  fold (joined llm_data "related_elements" (related_elements element)).
  destruct (joined llm_data "dependencies" (dependencies element)) as [deps|e|] eqn:Hd;
    [|done|by destruct (joined_not_hang _ _ _ Hd)].
  destruct (joined llm_data "related_elements" (related_elements element))
    as [related|e|] eqn:Hr; [|done|by destruct (joined_not_hang _ _ _ Hr)].
  destruct (joined_list _ _ _ _ Hd) as (ld & _ & ->).
  destruct (joined_list _ _ _ _ Hr) as (lr & _ & ->).
  match goal with
  | |- context [for_each list_keys clean ?d] => set (enhanced_doc := d)
  end.
  destruct (clean_all list_keys enhanced_doc) as (doc & Hrun & Hdoc).
  { intros k Hk. unfold list_keys in Hk. unfold enhanced_doc.
    repeat (apply elem_of_cons in Hk as [->|Hk];
            [rewrite ?lookup_insert_ne by done;
             first [rewrite lookup_insert_eq | rewrite lookup_singleton_eq];
             by eexists|]).
    by apply elem_of_nil in Hk. }
  rewrite Hrun. simpl. exists doc. split; [done|].
  assert (Hout : forall k, k ∉ list_keys -> doc !! k = enhanced_doc !! k).
  { intros k Hk. rewrite Hdoc. by rewrite bool_decide_eq_false_2. }
  assert (Hin : forall k, k ∈ list_keys -> doc !! k = tidy <$> enhanced_doc !! k).
  { intros k Hk. rewrite Hdoc. by rewrite bool_decide_eq_true_2. }
  split; [rewrite Hout by (unfold list_keys; Graph.absent_name);
          unfold enhanced_doc; apply lookup_insert_eq|].
  split; [rewrite Hout by (unfold list_keys; Graph.absent_name);
          unfold enhanced_doc; rewrite lookup_insert_ne by done;
          apply lookup_insert_eq|].
  split; [rewrite Hout by (unfold list_keys; Graph.absent_name);
          unfold enhanced_doc; rewrite !lookup_insert_ne by done;
          apply lookup_insert_eq|].
  split; [rewrite Hout by (unfold list_keys; Graph.absent_name);
          unfold enhanced_doc; rewrite !lookup_insert_ne by done;
          apply lookup_insert_eq|].
  split.
  { rewrite Hin by (unfold list_keys; listed_name).
    unfold enhanced_doc. rewrite !lookup_insert_ne by done.
    rewrite lookup_insert_eq. simpl. by rewrite tidy_list. }
  split.
  { rewrite Hin by (unfold list_keys; listed_name).
    unfold enhanced_doc. rewrite !lookup_insert_ne by done.
    rewrite lookup_insert_eq. simpl. by rewrite tidy_list. }
  intros k Hk. rewrite (Hin k Hk).
  assert (is_Some (enhanced_doc !! k)) as [v Hv].
  { unfold list_keys in Hk. unfold enhanced_doc.
    repeat (apply elem_of_cons in Hk as [->|Hk];
            [rewrite ?lookup_insert_ne by done;
             first [rewrite lookup_insert_eq | rewrite lookup_singleton_eq];
             by eexists|]).
    by apply elem_of_nil in Hk. }
  rewrite Hv. simpl. exists (tidy v). split; [done|]. apply tidy_shape.
Qed.

(** X24. What [_enhance_documentation] makes of an answer of the model.
    It leaves the agent alone.  When it returns, the type, the name, the
    file and the line of the documented element are those of the element,
    whatever the answer holds under these names; the dependencies and the
    related elements are those of the answer followed by the element's
    own; and each of the five list entries is either the empty list or a
    value that tests true.  It raises exactly when the answer holds, under
    [dependencies] or [related_elements], something that is not a list. *)
Theorem enhanced_documentation_keeps_identity element llm_data s :
  (_enhance_documentation element llm_data s).1 = s
  /\ match (_enhance_documentation element llm_data s).2 with
     | Val doc =>
         doc !! "element_type" = Some (PStr (element_type element))
         /\ doc !! "element_name" = Some (PStr (element_name element))
         /\ doc !! "file_path" = Some (PStr (file_path element))
         /\ doc !! "line_number" = Some (py_line_number element)
         /\ (exists l, default (PList []) (llm_data !! "dependencies") = PList l
                       /\ doc !! "dependencies"
                          = Some (PList (l ++ (PStr <$> dependencies element))))
         /\ (exists l, default (PList []) (llm_data !! "related_elements") = PList l
                       /\ doc !! "related_elements"
                          = Some (PList (l ++ (PStr <$> related_elements element))))
         /\ (forall k, k ∈ list_keys ->
               exists v, doc !! k = Some v /\ (v = PList [] \/ truthy v = true))
     | Exc e =>
         exists key v,
           (key = "dependencies" \/ key = "related_elements")
           /\ llm_data !! key = Some v /\ forall l, v <> PList l
     | Hang => False
     end.
Proof.
  assert (Hexc : forall key own e,
            joined llm_data key own = Exc e ->
            exists v, llm_data !! key = Some v /\ forall l, v <> PList l).
  { intros key own e. unfold joined, add_list.
    destruct (llm_data !! key) as [v|]; simpl; [|done].
    intros H. exists v. split; [done|]. intros l ->. done. }
  pose proof (_enhance_documentation_cases element llm_data s) as H.
  destruct (joined llm_data "dependencies" (dependencies element)) as [deps|e|] eqn:Hd.
  - destruct (joined llm_data "related_elements" (related_elements element))
      as [related|e|] eqn:Hr.
    + destruct H as (doc & -> & H1 & H2 & H3 & H4 & H5 & H6 & H7). simpl.
      destruct (joined_list _ _ _ _ Hd) as (ld & Hld & ->).
      destruct (joined_list _ _ _ _ Hr) as (lr & Hlr & ->).
      split; [done|]. repeat split; try done; by eexists.
    + rewrite H. simpl. split; [done|].
      destruct (Hexc _ _ _ Hr) as (v & Hv & Hn). exists "related_elements", v. auto.
    + done.
  - rewrite H. simpl. split; [done|].
    destruct (Hexc _ _ _ Hd) as (v & Hv & Hn). exists "dependencies", v. auto.
  - done.
Qed.

(** *** What the summary counts *)

(** The sum of the counts of a breakdown. *)
Definition counted (m : gmap hkey Z) : Z := map_fold (fun _ n acc => n + acc) 0 m.

Lemma counted_insert (m : gmap hkey Z) k n :
  m !! k = None -> counted (<[k := n]> m) = n + counted m.
Proof.
  intros Hk. unfold counted. apply map_fold_insert_L; [|done]. intros. lia.
Qed.

Lemma counted_increment (m : gmap hkey Z) k :
  counted (<[k := default 0 (m !! k) + 1]> m) = counted m + 1.
Proof.
  destruct (m !! k) as [n|] eqn:Hk; simpl.
  - rewrite <- (insert_delete_id m k n Hk) at 2.
    rewrite <- (insert_delete_eq m k (n + 1)).
    rewrite !counted_insert by apply lookup_delete_eq. lia.
  - rewrite counted_insert by done. lia.
Qed.

Lemma count_element_cases element (m : gmap hkey Z) :
  count_element element m =
    match key_of (default (PStr "unknown") (element !! "element_type")) with
    | Val k => (<[k := default 0 (m !! k) + 1]> m, Val tt)
    | Exc e => (m, Exc e)
    | Hang => (m, Hang)
    end.
Proof.
  unfold count_element, bind, await, get, modify, ret.
  destruct (key_of _) as [k|e|]; try done.
  case_bool_decide as Hin; simpl.
  - done.
  - rewrite lookup_insert_eq. simpl. rewrite insert_insert_eq.
    assert (m !! k = None) as -> by (by apply eq_None_not_Some). done.
Qed.

Definition counts_positive (m : gmap hkey Z) : Prop :=
  forall k n, m !! k = Some n -> 0 < n.

(** The loop of the summary. *)
Lemma count_loop docs : forall m,
  counts_positive m ->
  match (for_each docs count_element m).2 with
  | Val _ =>
      counted (for_each docs count_element m).1 = counted m + Z.of_nat (length docs)
      /\ counts_positive (for_each docs count_element m).1
  | Exc e =>
      exists doc, doc ∈ docs
        /\ key_of (default (PStr "unknown") (doc !! "element_type")) = Exc e
  | Hang => False
  end.
Proof.
  induction docs as [|doc docs IH]; intros m Hpos; cbn [for_each].
  - simpl. split; [lia | done].
  - unfold bind. rewrite count_element_cases.
    destruct (key_of (default (PStr "unknown") (doc !! "element_type")))
      as [k|e|] eqn:Hk.
    + set (m1 := <[k := default 0 (m !! k) + 1]> m).
      assert (Hpos1 : counts_positive m1).
      { intros k' n. unfold m1. destruct (decide (k' = k)) as [->|Hne].
        - rewrite lookup_insert_eq. intros [= <-].
          destruct (m !! k) as [n0|] eqn:E; simpl; [|lia].
          specialize (Hpos k n0 E). lia.
        - rewrite lookup_insert_ne by done. apply Hpos. }
      specialize (IH m1 Hpos1).
      destruct (for_each docs count_element m1) as [m2 [[]|e|]]; simpl in *.
      * destruct IH as [IH1 IH2]. split; [|done].
        rewrite IH1. unfold m1. rewrite counted_increment. lia.
      * destruct IH as (d & Hd & He). exists d. split; [|done].
        by apply list_elem_of_further.
      * done.
    + simpl. exists doc. split; [apply list_elem_of_here | done].
    + by destruct (default (PStr "unknown") (doc !! "element_type")).
Qed.

Lemma counts_positive_empty : counts_positive ∅.
Proof. intros k n. by rewrite lookup_empty. Qed.

(** X25. The summary accounts for every element once: when
    [_generate_documentation_summary] returns, its total is the number of
    documented elements, the counts of its breakdown are positive and add
    up to that total, and the coverage is 100 unless there is no element,
    when it is 0.  It raises only when the type of an element is a list or
    a dictionary, which cannot be the key of a dictionary. *)
Theorem summary_accounts_for_every_element docs :
  match _generate_documentation_summary docs with
  | Val summary =>
      total_elements summary = Z.of_nat (length docs)
      /\ counted (element_type_breakdown summary) = Z.of_nat (length docs)
      /\ counts_positive (element_type_breakdown summary)
      /\ coverage_percentage summary = match docs with [] => 0 | _ => 100 end
      /\ documentation_quality summary
         = match docs with [] => "none" | _ => "comprehensive" end
  | Exc e =>
      exists doc v, doc ∈ docs /\ doc !! "element_type" = Some v
                    /\ ((exists l, v = PList l) \/ (exists d, v = PDict d))
  | Hang => False
  end.
Proof.
  unfold _generate_documentation_summary.
  pose proof (count_loop docs ∅ counts_positive_empty) as H.
  destruct (for_each docs count_element ∅) as [m [[]|e|]]; simpl in *.
  - destruct H as [H1 H2]. unfold counted at 2 in H1. rewrite map_fold_empty in H1.
    repeat split; try done; by destruct docs.
  - destruct H as (doc & Hdoc & Hk).
    destruct (doc !! "element_type") as [v|] eqn:Hv; simpl in Hk; [|done].
    exists doc, v. repeat split; try done. destruct v; try done.
    + left. by eexists.
    + right. by eexists.
  - done.
Qed.

(** *** The analysis from end to end *)

(** The configuration, the model client and the activity flag of the agent
    are kept. *)
Definition handle_kept : relation Agent.store :=
  fun s s' =>
    Agent.config s'.1 = Agent.config s.1
    /\ Agent.llm s'.1 = Agent.llm s.1
    /\ Agent.is_active s'.1 = Agent.is_active s.1.

#[local] Instance handle_kept_preorder : PreOrder handle_kept.
Proof.
  split.
  - intros s. by repeat split.
  - intros s1 s2 s3 (A1 & A2 & A3) (B1 & B2 & B3). repeat split; congruence.
Qed.

(** [doc] is the documentation of [element]. *)
Definition documents (element : DocumentationElement) (doc : gmap string pyval) : Prop :=
  doc !! "element_type" = Some (PStr (element_type element))
  /\ doc !! "element_name" = Some (PStr (element_name element))
  /\ doc !! "file_path" = Some (PStr (file_path element)).

Lemma _generate_element_documentation_cases element s :
  exists s',
    handle_kept s s'
    /\ (_generate_element_documentation element s = (s', Val None)
        \/ (exists doc, _generate_element_documentation element s = (s', Val (Some doc))
                        /\ documents element doc)
        \/ _generate_element_documentation element s = (s', Hang)).
Proof.
  destruct s as [a n].
  unfold _generate_element_documentation, try_except, bind, Agent.self. simpl.
  match goal with
  | |- context [Agent._call_llm clock ?ms ?ctx (a, n)] =>
      pose proof (Agent._call_llm_keeps_handle clock ms ctx a n) as Hk;
      pose proof (Agent._call_llm_no_exception clock ms ctx (a, n)) as Hn;
      destruct (Agent._call_llm clock ms ctx (a, n)) as [[a' n'] [r|e|]]
  end; simpl in Hk, Hn.
  - destruct (Agent.success r).
    + pose proof (_enhance_documentation_cases element (Agent.data r) (a', n')) as H.
      destruct (joined (Agent.data r) "dependencies" (dependencies element))
        as [deps|e|]; [|rewrite H; by exists (a', n'); split; [|left]|done].
      destruct (joined (Agent.data r) "related_elements" (related_elements element))
        as [related|e|]; [|rewrite H; by exists (a', n'); split; [|left]|done].
      destruct H as (doc & -> & H1 & H2 & H3 & _).
      exists (a', n'). split; [done|]. right; left. by exists doc.
    + exists (a', n'). split; [done | by left].
  - by destruct (Hn e).
  - exists (a', n'). split; [done | by right; right].
Qed.

Lemma nonempty_truthy (doc : gmap string pyval) k v :
  doc !! k = Some v -> truthy (PDict doc) = true.
Proof.
  intros Hk. simpl. rewrite bool_decide_eq_false_2; [done|].
  rewrite map_size_empty_iff. intros ->. by rewrite lookup_empty in Hk.
Qed.

Lemma document_cases element s acc :
  exists s',
    handle_kept s s'
    /\ (document element (s, acc) = ((s', acc), Val tt)
        \/ (exists doc, document element (s, acc) = ((s', (acc ++ [doc])%list), Val tt)
                        /\ documents element doc)
        \/ document element (s, acc) = ((s', acc), Hang)).
Proof.
  destruct (_generate_element_documentation_cases element s)
    as (s' & Hk & [H|[(doc & H & Hdoc)|H]]);
    exists s'; (split; [done|]);
    unfold document, try_except, bind, Graph.outer; cbn -[truthy]; rewrite H;
    cbn -[truthy].
  - by left.
  - right; left. exists doc. split; [|done].
    destruct Hdoc as (Ht & _). by rewrite (nonempty_truthy doc _ _ Ht).
  - by right; right.
Qed.

(** The loop of [analyze]: it raises nothing, and what it adds to the list
    are documentations of elements it went through, one for each at most. *)
Lemma document_all els : forall s acc,
  exists s' added,
    (for_each els document (s, acc)).1 = (s', (acc ++ added)%list)
    /\ ((for_each els document (s, acc)).2 = Val tt
        \/ (for_each els document (s, acc)).2 = Hang)
    /\ handle_kept s s'
    /\ (length added <= length els)%nat
    /\ Forall (fun doc => exists element, element ∈ els /\ documents element doc) added.
Proof.
  induction els as [|element els IH]; intros s acc; cbn [for_each].
  - exists s, []. simpl. rewrite app_nil_r. repeat split; auto.
  - unfold bind.
    destruct (document_cases element s acc) as (s1 & Hk & [H|[(doc & H & Hdoc)|H]]);
      rewrite H.
    + destruct (IH s1 acc) as (s' & added & Hrun & Hout & Hk' & Hlen & Hall).
      exists s', added. split; [done|]. split; [done|]. split; [by etrans|].
      split; [simpl; lia|].
      eapply Forall_impl; [exact Hall|]. intros d (el & Hel & Hd).
      exists el. split; [by apply list_elem_of_further | done].
    + destruct (IH s1 (acc ++ [doc])%list) as (s' & added & Hrun & Hout & Hk' & Hlen & Hall).
      exists s', (doc :: added). rewrite Hrun. rewrite <- app_assoc. simpl.
      split; [done|]. split; [done|]. split; [by etrans|]. split; [lia|].
      constructor.
      * exists element. split; [apply list_elem_of_here | done].
      * eapply Forall_impl; [exact Hall|]. intros d (el & Hel & Hd).
        exists el. split; [by apply list_elem_of_further | done].
    + exists s1, []. simpl. rewrite app_nil_r.
      split; [done|]. split; [by right|]. split; [done|]. split; [lia | constructor].
Qed.

(** The summary of documentations of elements. *)
Lemma summary_of_documented (els : list DocumentationElement) docs :
  Forall (fun doc => exists element, element ∈ els /\ documents element doc) docs ->
  exists summary,
    _generate_documentation_summary docs = Val summary
    /\ total_elements summary = Z.of_nat (length docs).
Proof.
  intros Hall. unfold _generate_documentation_summary.
  pose proof (count_loop docs ∅ counts_positive_empty) as H.
  destruct (for_each docs count_element ∅) as [m [[]|e|]]; simpl in *.
  - by eexists.
  - destruct H as (doc & Hdoc & Hk).
    rewrite Forall_forall in Hall. destruct (Hall doc Hdoc) as (el & _ & Ht & _).
    rewrite Ht in Hk. done.
  - done.
Qed.

(** The configuration after the overrides of a call of [analyze]. *)
Definition overridden (model tone : option string) (c : Agent.AgentConfig)
  : Agent.AgentConfig :=
  {| Agent.model := match model with
                    | Some m => if String.eqb m "" then Agent.model c else m
                    | None => Agent.model c
                    end;
     Agent.tone := match tone with
                   | Some t => if String.eqb t "" then Agent.tone c else t
                   | None => Agent.tone c
                   end |}.

Lemma overrides_applied model tone a n :
  exists a1,
    (let! _ := when_given model (fun m => Agent.update (set_model m)) in
     when_given tone (fun t => Agent.update (set_tone t))) (a, n)
    = ((a1, n), Val tt)
    /\ Agent.config a1 = overridden model tone (Agent.config a)
    /\ Agent.llm a1 = Agent.llm a
    /\ Agent.is_active a1 = Agent.is_active a.
Proof.
  unfold bind, when_given, Agent.update, modify, ret, overridden.
  destruct (Agent.config a) as [m0 t0] eqn:Hc.
  destruct model as [m|], tone as [t|]; simpl;
    repeat match goal with
           | |- context [String.eqb ?x ""] => destruct (String.eqb x ""); simpl
           end;
    eexists; (split; [reflexivity|]);
    unfold set_model, set_tone, Agent.set_config; simpl; by rewrite ?Hc.
Qed.

(** X26. [analyze] raises nothing, and when it returns it reports a
    success, whatever the model did: the result has no error and carries a
    report for the project; the report counts the elements extracted and
    the elements documented, which are the entries it lists; every entry is
    the documentation of one of the extracted elements, and there are no
    more entries than elements; the summary is the one of these entries. *)
Theorem analyze_always_reports_success parsed_elements project_id model tone s :
  match (analyze parsed_elements project_id model tone s).2 with
  | Val r =>
      success r = true
      /\ errors r = []
      /\ exists report,
           data r = Report report
           /\ report_project_id report = project_id
           /\ report_total_elements report
              = Z.of_nat (length (_extract_documentation_elements parsed_elements))
           /\ report_documented_elements report
              = Z.of_nat (length (report_elements report))
           /\ (length (report_elements report)
               <= length (_extract_documentation_elements parsed_elements))%nat
           /\ Forall (fun doc =>
                        exists element,
                          element ∈ _extract_documentation_elements parsed_elements
                          /\ documents element doc)
                (report_elements report)
           /\ total_elements (report_summary report)
              = report_documented_elements report
  | Exc _ => False
  | Hang => True
  end.
Proof.
  destruct s as [a n].
  destruct (overrides_applied model tone a n) as (a1 & Hover & _).
  unfold analyze, try_except. unfold bind at 1 2.
  unfold bind in Hover. 
  destruct (when_given model _ (a, n)) as [s0 [[]|e|]]; try discriminate.
  rewrite Hover.
  set (els := _extract_documentation_elements parsed_elements).
  unfold Graph.with_local, bind.
  destruct (document_all els (a1, n) []) as (s' & added & Hrun & Hout & _ & Hlen & Hall).
  match goal with
  | |- context [@for_each ?S ?A ?l ?b ?st] =>
      change (for_each els document (a1, n, [])) with (@for_each S A l b st)
        in Hrun, Hout;
      destruct (@for_each S A l b st) as [[s2 acc] r]
  end.
  simpl in Hrun, Hout. injection Hrun as -> ->.
  destruct Hout as [-> | ->]; [|done].
  unfold Graph.local, await. simpl.
  destruct (summary_of_documented els added Hall) as (summary & -> & Htotal).
  simpl. split; [done|]. split; [done|].
  eexists. split; [reflexivity|]. simpl. by repeat split.
Qed.

(** The loop on an agent that cannot reach the model: nothing is
    documented. *)
Lemma document_all_not_ready els : forall a n acc,
  Agent.is_active a = false \/ Agent.llm a = None ->
  for_each els document ((a, n), acc)
  = (((a, (n + 2 * length els)%nat), acc), Val tt).
Proof.
  induction els as [|element els IH]; intros a n acc Hnot; cbn [for_each].
  - simpl. by rewrite Nat.add_0_r.
  - unfold bind.
    assert (document element ((a, n), acc) = (((a, S (S n)), acc), Val tt)) as ->.
    { unfold document, try_except, bind, Graph.outer, _generate_element_documentation,
        try_except, bind, Agent.self. simpl.
      by rewrite (Agent._call_llm_not_ready clock _ _ a n Hnot). }
    rewrite (IH a (S (S n)) acc Hnot). do 3 f_equal. simpl. lia.
Qed.

(** X27. A stage that cannot reach the model still reports a success: on
    an agent that is inactive or holds no client, [analyze] returns a
    result with [success] set and no error, whose report counts the
    elements extracted and documents none of them. *)
Theorem unreachable_model_is_reported_as_success parsed_elements project_id model tone a n :
  Agent.is_active a = false \/ Agent.llm a = None ->
  exists a' n' r report,
    analyze parsed_elements project_id model tone (a, n) = ((a', n'), Val r)
    /\ success r = true
    /\ errors r = []
    /\ data r = Report report
    /\ report_total_elements report
       = Z.of_nat (length (_extract_documentation_elements parsed_elements))
    /\ report_documented_elements report = 0
    /\ report_elements report = []
    /\ documentation_quality (report_summary report) = "none".
Proof.
  intros Hnot.
  destruct (overrides_applied model tone a n) as (a1 & Hover & _ & Hl & Ha).
  unfold analyze, try_except. unfold bind at 1 2.
  unfold bind in Hover.
  destruct (when_given model _ (a, n)) as [s0 [[]|e|]]; try discriminate.
  rewrite Hover.
  unfold Graph.with_local, bind.
  rewrite document_all_not_ready by (rewrite Ha, Hl; exact Hnot).
  unfold Graph.local, await. simpl.
  eexists _, _, _, _. split; [reflexivity|]. by repeat split.
Qed.

(** X28. The overrides of a call stay: whatever becomes of a call of
    [analyze], the configuration of the agent is afterwards the one it had,
    with the model and the tone of the call in place of its own when the
    call gave them (an absent or empty one changes nothing); the model
    client and the activity flag are as they were. *)
Theorem analyze_overrides_persist parsed_elements project_id model tone a n :
  let a' := (analyze parsed_elements project_id model tone (a, n)).1.1 in
  Agent.config a' = overridden model tone (Agent.config a)
  /\ Agent.llm a' = Agent.llm a
  /\ Agent.is_active a' = Agent.is_active a.
Proof.
  intros a'.
  destruct (overrides_applied model tone a n) as (a1 & Hover & Hc & Hl & Ha).
  assert (Hk : exists s', (analyze parsed_elements project_id model tone (a, n)).1 = s'
                          /\ handle_kept (a1, n) s').
  { unfold analyze, try_except. unfold bind at 1 2.
    unfold bind in Hover.
    destruct (when_given model _ (a, n)) as [s0 [[]|e|]]; try discriminate.
    rewrite Hover.
    set (els := _extract_documentation_elements parsed_elements).
    unfold Graph.with_local, bind.
    destruct (document_all els (a1, n) [])
      as (s' & added & Hrun & Hout & Hk & Hlen & Hall).
    match goal with
    | |- context [@for_each ?S ?A ?l ?b ?st] =>
        change (for_each els document (a1, n, [])) with (@for_each S A l b st)
          in Hrun, Hout;
        destruct (@for_each S A l b st) as [[s2 acc] r]
    end.
    simpl in Hrun, Hout. injection Hrun as -> ->.
    destruct Hout as [-> | ->].
    - unfold Graph.local, await. simpl.
      destruct (summary_of_documented els added Hall) as (summary & -> & _).
      simpl. by exists s'.
    - simpl. by exists s'. }
  destruct Hk as (s' & Hs' & K1 & K2 & K3). simpl in K1, K2, K3.
  unfold a'. rewrite Hs'. repeat split; congruence.
Qed.

End Stage.

(** A stage for running examples: one class element for each parsed file,
    and an agent built without the key. *)
Definition sample_isoformat (t : Z) : string := "2024-05-01T10:00:00".

Definition sample_extract (parsed_elements : gmap string pyval)
  : list DocumentationElement :=
  (fun kv : string * pyval =>
     {| element_type := "class"; element_name := kv.1; file_path := kv.1;
        line_number := Some 1; description := ""; parameters := [];
        return_value := ""; examples := []; code_snippets := [];
        dependencies := []; related_elements := [] |})
  <$> map_to_list parsed_elements.

Definition sample_prompt (element : DocumentationElement) (tone : string) : string :=
  "Document " +:+ element_name element +:+ " in a " +:+ tone +:+ " tone.".

Definition sample_parsed : gmap string pyval :=
  {[ "app/User.php" := PDict {[ "content" := PStr "<?php class User {}" ]} ]}.

Lemma unreachable_model_is_reported_as_success_witness :
  exists a' n' r report,
    analyze (impl := Agent.plain_impl) Agent.wall_clock sample_isoformat sample_extract
      sample_prompt sample_parsed 7 (Some "llama-3-70b") (Some "friendly")
      ((Agent.__init__ Agent.no_key Agent.sample_ChatOpenAI None).1, 0%nat)
    = ((a', n'), Val r)
    /\ success r = true
    /\ errors r = []
    /\ data r = Report report
    /\ report_total_elements report = Z.of_nat (length (sample_extract sample_parsed))
    /\ report_documented_elements report = 0
    /\ report_elements report = []
    /\ documentation_quality (report_summary report) = "none".
Proof.
  exact (unreachable_model_is_reported_as_success (impl := Agent.plain_impl)
           Agent.wall_clock sample_isoformat sample_extract sample_prompt
           sample_parsed 7 (Some "llama-3-70b") (Some "friendly")
           (Agent.__init__ Agent.no_key Agent.sample_ChatOpenAI None).1 0%nat
           (or_introl eq_refl)).
Defined.

End Documenter.

(** ** The HTTP front ([api/server.py]) *)

Module Server.

(** How a request handler ends: with its response, with an
    [HTTPException], or never (it awaits a collaborator that does not
    answer). *)
Inductive reply (A : Type) : Type :=
| Ok (response : A)
| HTTPException (status_code : Z) (detail : string)
| Pending.
Arguments Ok {A} response.
Arguments HTTPException {A} status_code detail.
Arguments Pending {A}.

(** *** The health check *)

(** [needle in haystack], for strings. *)
Fixpoint contains (needle haystack : string) : bool :=
  String.prefix needle haystack
  || match haystack with
     | EmptyString => false
     | String _ rest => contains needle rest
     end.

(** [HealthResponse] *)
Record HealthResponse : Type := mkHealth {
  status : string;
  timestamp : string;
  services : gmap string string
}.

(** One block of [health_check] for a client with a [ping]: the global is
    [None], or it holds a client and awaiting its [ping] gives [ping]. *)
Definition service_status (client : option (outcome unit)) : outcome string :=
  match client with
  | Some ping =>
      match ping with
      | Val _ => Val "healthy"
      | Exc e => Val ("unhealthy: " +:+ e)
      | Hang => Hang
      end
  | None => Val "not_initialized"
  end.

(** [all("healthy" in status for status in services_status.values())] *)
Definition all_healthy (services_status : gmap string string) : bool :=
  forallb (contains "healthy") (map_to_list services_status).*2.

(** [health_check]; [utcnow] is [datetime.utcnow().isoformat()]. *)
Definition health_check (db_manager redis_client : option (outcome unit))
    (orchestrator : bool) (utcnow : string) : outcome HealthResponse :=
  match service_status db_manager with
  | Val database =>
      match service_status redis_client with
      | Val redis =>
          let services_status : gmap string string :=
            {[ "database" := database;
               "redis" := redis;
               "orchestrator" := if orchestrator then "healthy" else "not_initialized" ]} in
          Val {| status := if all_healthy services_status then "healthy" else "degraded";
                 timestamp := utcnow;
                 services := services_status |}
      | Exc e => Exc e
      | Hang => Hang
      end
  | Exc e => Exc e
  | Hang => Hang
  end.

Lemma unhealthy_contains_healthy e : contains "healthy" ("unhealthy: " +:+ e) = true.
Proof. reflexivity. Qed.

Lemma all_healthy_spec (m : gmap string string) :
  all_healthy m = true <-> forall k v, m !! k = Some v -> contains "healthy" v = true.
Proof.
  unfold all_healthy. rewrite forallb_forall. split.
  - intros H k v Hk. apply H. apply list_elem_of_In.
    apply list_elem_of_fmap. exists (k, v). split; [done|].
    by apply elem_of_map_to_list.
  - intros H v Hv. apply list_elem_of_In in Hv.
    apply list_elem_of_fmap in Hv as ([k v'] & -> & Hkv).
    apply elem_of_map_to_list in Hkv. by apply (H k).
Qed.

Lemma all_healthy_three (database redis orchestrator : string) :
  all_healthy {[ "database" := database; "redis" := redis;
                 "orchestrator" := orchestrator ]}
  = contains "healthy" database && contains "healthy" redis
    && contains "healthy" orchestrator.
Proof.
  apply eq_true_iff_eq. rewrite all_healthy_spec, !andb_true_iff. split.
  - intros H. repeat split.
    + apply (H "database"). apply lookup_insert_eq.
    + apply (H "redis"). rewrite lookup_insert_ne by done. apply lookup_insert_eq.
    + apply (H "orchestrator"). rewrite !lookup_insert_ne by done.
      apply lookup_singleton_eq.
  - intros [[H1 H2] H3] k v Hk.
    apply lookup_insert_Some in Hk as [[_ <-]|[_ Hk]]; [done|].
    apply lookup_insert_Some in Hk as [[_ <-]|[_ Hk]]; [done|].
    apply lookup_singleton_Some in Hk as [_ <-]. done.
Qed.

(** Whether a client is there. *)
Definition initialised {A} (client : option A) : bool :=
  match client with
  | Some _ => true
  | None => false
  end.

(** X29. The health check raises nothing, and when it comes back its
    verdict goes by the presence of the three services alone: [healthy]
    when the database client, the cache client and the orchestrator are all
    there, [degraded] when one is missing, and nothing else.  A client
    whose [ping] raised is listed as [unhealthy: ...] and does not lower
    the verdict, for that text contains [healthy]. *)
Theorem health_goes_by_presence db_manager redis_client orchestrator utcnow :
  match health_check db_manager redis_client orchestrator utcnow with
  | Val response =>
      status response
      = (if initialised db_manager && initialised redis_client && orchestrator
         then "healthy" else "degraded")
      /\ (forall e, db_manager = Some (Exc e) ->
            services response !! "database" = Some ("unhealthy: " +:+ e))
      /\ (forall e, redis_client = Some (Exc e) ->
            services response !! "redis" = Some ("unhealthy: " +:+ e))
  | Exc _ => False
  | Hang => db_manager = Some Hang \/ redis_client = Some Hang
  end.
Proof.
  unfold health_check.
  destruct db_manager as [[[]|e1|]|], redis_client as [[[]|e2|]|]; simpl; auto;
    rewrite all_healthy_three;
    rewrite ?unhealthy_contains_healthy;
    (split; [by destruct orchestrator|]);
    (split; [intros e [= <-] || (intros e; discriminate) || idtac
            |intros e [= <-] || (intros e; discriminate) || idtac]);
    rewrite ?lookup_insert_eq, ?lookup_insert_ne by done;
    try done; by rewrite lookup_insert_eq.
Qed.

(** *** The status of an analysis *)

(** The questions [get_analysis_status] puts to the durable store. *)
Inductive query : Type :=
| GetAnalysisSession (session_id : string)
| GetSessionProgress (session_id : string)
| GetSessionResults (session_id : string).

#[export] Instance query_eq_dec : EqDecision query.
Proof. solve_decision. Defined.

(** An awaited call on the durable store, noted in the list of the calls
    made. *)
Definition ask {A} (q : query) (answer : outcome A) : M (list query) A :=
  fun asked => ((asked ++ [q])%list, answer).

(** [v == s] for a string [s]. *)
Definition is_str (v : pyval) (s : string) : bool :=
  match v with
  | PStr x => String.eqb x s
  | _ => false
  end.

Section Status.

(** The durable store: the session, a dictionary or [None]; its progress;
    its results. *)
Variable get_analysis_session : string -> outcome (option (gmap string pyval)).
Variable get_session_progress : string -> outcome pyval.
Variable get_session_results : string -> outcome pyval.

(** The constructor of [AnalysisStatusResponse], which validates the fields
    it is given: [session_id], [status], [progress], [results], [error]. *)
Context {Response : Type}.
Variable AnalysisStatusResponse :
  string -> pyval -> pyval -> pyval -> pyval -> outcome Response.

(** The [try] block of [get_analysis_status]; an [HTTPException] it raises
    is the value on the right. *)
Definition status_of (session_id : string) : M (list query) (Response + Z * string) :=
  let! session := ask (GetAnalysisSession session_id) (get_analysis_session session_id) in
  match session with
  | None => ret (inr (404, "Analysis session not found"))
  | Some session =>
      if negb (truthy (PDict session)) then ret (inr (404, "Analysis session not found"))
      else
        let! progress :=
          ask (GetSessionProgress session_id) (get_session_progress session_id) in
        let! status := Graph.getitem session "status" in
        let! results :=
          (if is_str status "completed"
           then ask (GetSessionResults session_id) (get_session_results session_id)
           else ret PNone) in
        let! response :=
          await (AnalysisStatusResponse session_id status progress results
                   (default PNone (session !! "error_message"))) in
        ret (inl response)
  end.

(** [get_analysis_status]; [db_manager] says whether the global holds a
    client. *)
Definition get_analysis_status (db_manager : bool) (session_id : string)
  : list query -> list query * reply Response :=
  fun asked =>
    if negb db_manager then (asked, HTTPException 503 "Database not available")
    else
      match status_of session_id asked with
      | (asked', Val (inl response)) => (asked', Ok response)
      | (asked', Val (inr (status_code, detail))) => (asked', HTTPException status_code detail)
      | (asked', Exc e) =>
          (asked', HTTPException 500 ("Failed to get analysis status: " +:+ e))
      | (asked', Hang) => (asked', Pending)
      end.




End Status.

(** On the [DatabaseManager] of the repository, which has no
    [get_analysis_session], the status endpoint answers 500 for every
    session. *)
Example status_on_repository_store session_id
    (AnalysisStatusResponse : string -> pyval -> pyval -> pyval -> pyval -> outcome pyval) :
  let missing {A} name : string -> outcome A :=
    fun _ => Exc (Graph.attribute_error "DatabaseManager" name) in
  get_analysis_status (missing "get_analysis_session") (missing "get_session_progress")
    (missing "get_session_results") AnalysisStatusResponse true session_id []
  = ([GetAnalysisSession session_id],
     HTTPException 500
       ("Failed to get analysis status: "
        +:+ "'DatabaseManager' object has no attribute 'get_analysis_session'")).
Proof. reflexivity. Qed.

End Server.
